(** * cwbackup-tui: the session state machine, the process runner and the
      domain normalizer of [cmd/cwbackup-tui/main.go], embedded in Rocq.

    Go strings are byte sequences; they are modelled as [list ascii].
    The Go standard-library functions the program calls ([strings.ToLower],
    [strings.TrimSpace], [strings.Fields], [strings.NewReplacer],
    [regexp.FindString], [os.Stat], ...) are given by their documented
    behaviour; the Bubble Tea widgets and lipgloss styles, which live
    outside the repository, are an interface ([Bubbles]) the program is
    parameterised over. *)

From Stdlib Require Import Ascii String ZArith Lia DecimalString.
From stdpp Require Import base list gmap strings.

Set Default Proof Using "Type".
Set Warnings "-register-all".

(** ** Go strings *)

Abbreviation gostring := (list ascii).

Definition str (s : string) : gostring := list_ascii_of_string s.
Arguments str s%_string.

Definition chr (n : nat) : ascii := ascii_of_nat n.

Definition code (c : ascii) : nat := nat_of_ascii c.

Definition between (lo hi : nat) (c : ascii) : bool :=
  (lo <=? code c)%nat && (code c <=? hi)%nat.

Definition nl : ascii := chr 10.

(** ** Package [strings] (and the part of [unicode] it relies on) *)

Module strings.

(** [strings.HasPrefix]; [cut p s] is the rest of [s] behind the prefix. *)
Fixpoint cut (p s : gostring) : option gostring :=
  match p, s with
  | [], _ => Some s
  | a :: p', b :: s' => if bool_decide (a = b) then cut p' s' else None
  | _ :: _, [] => None
  end.

Definition HasPrefix (s p : gostring) : bool :=
  match cut p s with Some _ => true | None => false end.

Definition HasSuffix (s p : gostring) : bool :=
  HasPrefix (rev s) (rev p).

Definition TrimPrefix (s p : gostring) : gostring :=
  match cut p s with Some r => r | None => s end.

(** The UTF-8 encodings of the code points for which [unicode.IsSpace]
    holds: tab, LF, VT, FF, CR, space, U+0085, U+00A0, U+1680,
    U+2000..U+200A, U+2028, U+2029, U+202F, U+205F, U+3000. *)
Definition spaces : list gostring :=
  [ [chr 9]; [chr 10]; [chr 11]; [chr 12]; [chr 13]; [chr 32];
    [chr 194; chr 133]; [chr 194; chr 160];
    [chr 225; chr 154; chr 128];
    [chr 226; chr 128; chr 128]; [chr 226; chr 128; chr 129];
    [chr 226; chr 128; chr 130]; [chr 226; chr 128; chr 131];
    [chr 226; chr 128; chr 132]; [chr 226; chr 128; chr 133];
    [chr 226; chr 128; chr 134]; [chr 226; chr 128; chr 135];
    [chr 226; chr 128; chr 136]; [chr 226; chr 128; chr 137];
    [chr 226; chr 128; chr 138];
    [chr 226; chr 128; chr 168]; [chr 226; chr 128; chr 169];
    [chr 226; chr 128; chr 175];
    [chr 226; chr 129; chr 159];
    [chr 227; chr 128; chr 128] ].

(** The first of [ws] that starts [s], with the rest of [s] behind it. *)
Fixpoint cutAny (ws : list gostring) (s : gostring) : option gostring :=
  match ws with
  | [] => None
  | w :: ws' => match cut w s with Some r => Some r | None => cutAny ws' s end
  end.

(** A white-space rune at the head of [s] (decoded as [utf8.DecodeRune]
    does), and the one at its end (as [utf8.DecodeLastRune] does). *)
Definition leadingSpace (s : gostring) : option gostring := cutAny spaces s.

Definition trailingSpace (s : gostring) : option gostring :=
  option_map (@rev ascii) (cutAny (map (@rev ascii) spaces) (rev s)).

Fixpoint trimLeft (fuel : nat) (s : gostring) : gostring :=
  match fuel with
  | O => s
  | S fuel' =>
      match leadingSpace s with
      | Some r => trimLeft fuel' r
      | None => s
      end
  end.

Fixpoint trimRight (fuel : nat) (s : gostring) : gostring :=
  match fuel with
  | O => s
  | S fuel' =>
      match trailingSpace s with
      | Some r => trimRight fuel' r
      | None => s
      end
  end.

(** [strings.TrimSpace]: all leading and trailing white space removed. *)
Definition TrimSpace (s : gostring) : gostring :=
  let s1 := trimLeft (length s) s in trimRight (length s1) s1.

(** [strings.Fields]: the maximal runs of non-space bytes. [cur] is the
    field being read. *)
Definition flush (cur : gostring) : list gostring :=
  match cur with [] => [] | _ => [cur] end.

Fixpoint fields (fuel : nat) (cur s : gostring) : list gostring :=
  match fuel with
  | O => flush cur
  | S fuel' =>
      match leadingSpace s with
      | Some r => flush cur ++ fields fuel' [] r
      | None =>
          match s with
          | [] => flush cur
          | c :: s' => fields fuel' (cur ++ [c]) s'
          end
      end
  end.

Definition Fields (s : gostring) : list gostring := fields (S (length s)) [] s.

(** [strings.Join]. *)
Fixpoint Join (elems : list gostring) (sep : gostring) : gostring :=
  match elems with
  | [] => []
  | [e] => e
  | e :: rest => e ++ sep ++ Join rest sep
  end.

(** [strings.ToLower]. ASCII-only input is lowered byte by byte (and
    returned as it is when it has no upper-case letter); any other input
    goes through [strings.Map(unicode.ToLower, s)], whose case tables are
    the parameter [unicodeLower]. *)
Definition isUpper (c : ascii) : bool := between 65 90 c.

Definition lowerByte (c : ascii) : ascii :=
  if isUpper c then chr (code c + 32) else c.

Definition isASCII (s : gostring) : bool := forallb (fun c => (code c <? 128)%nat) s.

Definition ToLower (unicodeLower : gostring -> gostring) (s : gostring) : gostring :=
  if isASCII s then
    if existsb isUpper s then map lowerByte s else s
  else unicodeLower s.

(** [strings.NewReplacer(oldnew...).Replace]: the generic replacer. At
    each position the first pair, in argument order, whose old string
    starts the remaining input is applied and the scan resumes behind the
    match; otherwise one byte is copied. *)
Fixpoint lookup (oldnew : list (gostring * gostring)) (s : gostring)
  : option (gostring * gostring) :=
  match oldnew with
  | [] => None
  | (old, new) :: rest =>
      match cut old s with
      | Some r => Some (new, r)
      | None => lookup rest s
      end
  end.

Fixpoint replace (oldnew : list (gostring * gostring)) (fuel : nat) (s : gostring)
  : gostring :=
  match fuel with
  | O => s
  | S fuel' =>
      match s with
      | [] => []
      | c :: s' =>
          match lookup oldnew s with
          | Some (new, r) => new ++ replace oldnew fuel' r
          | None => c :: replace oldnew fuel' s'
          end
      end
  end.

Definition Replace (oldnew : list (gostring * gostring)) (s : gostring) : gostring :=
  replace oldnew (length s) s.

(** [strings.Split] for a separator of one byte: [n] separators give
    [n + 1] pieces. [cur] is the piece being read. *)
Fixpoint split (sep : ascii) (cur s : gostring) : list gostring :=
  match s with
  | [] => [cur]
  | c :: s' =>
      if bool_decide (c = sep) then cur :: split sep [] s'
      else split sep (cur ++ [c]) s'
  end.

Definition Split (s : gostring) (sep : ascii) : list gostring := split sep [] s.

End strings.

(** ** Package [regexp]

    Go's [regexp] returns the leftmost match and, among the matches that
    start there, the one a backtracking search finds first. The matcher
    below is that search: [bt r s k] matches [r] at the head of [s] and
    hands the rest of the input to the continuation [k]; repetitions are
    greedy. The classes of the program's pattern hold ASCII bytes only,
    so matching bytes and matching runes agree. *)

Module regexp.

Inductive regex :=
| Class (p : ascii -> bool)          (* a character class or a literal *)
| Cat (r1 r2 : regex)                (* r1 r2 *)
| Star (r : regex)                   (* r, zero or more times *)
| Plus (r : regex)                   (* r, one or more times *)
| AtLeast (n : nat) (r : regex).     (* r, n or more times *)

Definition matcher := gostring -> (gostring -> option gostring) -> option gostring.

(** Greedy iteration of [step]: one more round is tried first, the
    continuation only when that fails. A round has to consume input. *)
Fixpoint star (step : matcher) (fuel : nat) (s : gostring)
  (k : gostring -> option gostring) : option gostring :=
  match fuel with
  | O => k s
  | S fuel' =>
      match step s (fun s' =>
                      if (length s' <? length s)%nat
                      then star step fuel' s' k else None) with
      | Some r => Some r
      | None => k s
      end
  end.

Fixpoint times (step : matcher) (n : nat) (s : gostring)
  (k : gostring -> option gostring) : option gostring :=
  match n with
  | O => k s
  | S n' => step s (fun s' => times step n' s' k)
  end.

Fixpoint bt (r : regex) : matcher :=
  fun s k =>
  match r with
  | Class p =>
      match s with
      | c :: s' => if p c then k s' else None
      | [] => None
      end
  | Cat r1 r2 => bt r1 s (fun s' => bt r2 s' k)
  | Star r1 => star (bt r1) (length s) s k
  | Plus r1 => bt r1 s (fun s' => star (bt r1) (length s') s' k)
  | AtLeast n r1 => times (bt r1) n s (fun s' => star (bt r1) (length s') s' k)
  end.

(** [Regexp.FindString]: the text of the leftmost match, or the empty
    string when there is none. *)
Fixpoint FindString (re : regex) (s : gostring) : gostring :=
  match bt re s Some with
  | Some rest => take (length s - length rest) s
  | None =>
      match s with
      | [] => []
      | _ :: s' => FindString re s'
      end
  end.

End regexp.

(** ** The domain normalizer *)

Definition isLower (c : ascii) : bool := between 97 122 c.

Definition isDigit (c : ascii) : bool := between 48 57 c.

Definition isChar (x c : ascii) : bool := bool_decide (c = x).

(** [[a-z0-9-]] *)
Definition labelChar (c : ascii) : bool :=
  isLower c || isDigit c || isChar "-" c.

(** The pattern [([a-z0-9-]+\.)+[a-z]{2,}]: a group of one label and its
    dot, once or more, and then the last label. *)
Definition groupRe : regexp.regex :=
  regexp.Cat (regexp.Plus (regexp.Class labelChar)) (regexp.Class (isChar ".")).

Definition lastRe : regexp.regex := regexp.AtLeast 2 (regexp.Class isLower).

Definition hostRe : regexp.regex := regexp.Cat (regexp.Plus groupRe) lastRe.

Definition repls : list (gostring * gostring) :=
  [ ([chr 9], str " "); (str ",", str " "); (str ";", str " ");
    (str "|", str " "); ([chr 13], str " ");
    (str "https://", []); (str "http://", []); (str "/", str " ") ].

(** The loop over the tokens: [seen] is the map used as a set, [out] the
    slice being built. *)
Fixpoint collect (toks : list gostring) (seen : gset gostring) (out : list gostring)
  : list gostring :=
  match toks with
  | [] => out
  | tok :: toks' =>
      let m := regexp.FindString hostRe tok in
      if bool_decide (m = []) then collect toks' seen out
      else
        let m := strings.TrimPrefix m (str "www.") in
        if bool_decide (m ∈ seen) then collect toks' seen out
        else collect toks' ({[ m ]} ∪ seen) (out ++ [m])
  end.

Definition normalizeDomains (unicodeLower : gostring -> gostring) (s : gostring)
  : list gostring :=
  let s := strings.ToLower unicodeLower s in
  let s := strings.Replace repls s in
  collect (strings.Fields s) ∅ [].

(** ** Errors

    A Go [error] is a message with, possibly, a wrapped error behind it
    ([fmt.Errorf] with [%w], [Unwrap]); [context.Canceled] is a sentinel. *)

Inductive error :=
| errorString (msg : gostring)
| Canceled
| wrapError (msg : gostring) (err : error).

Definition Error (e : error) : gostring :=
  match e with
  | errorString msg => msg
  | Canceled => str "context canceled"
  | wrapError msg _ => msg
  end.

(** [errors.Is(err, context.Canceled)]. *)
Fixpoint errors_Is_Canceled (e : error) : bool :=
  match e with
  | errorString _ => false
  | Canceled => true
  | wrapError _ e' => errors_Is_Canceled e'
  end.

(** ** Package [os]: the part of the file system the program looks at *)

Module os.

Record FileInfo := { IsDir : bool; Mode : Z }.

(** What [os.Stat] answers for a path, and the error [os.Chmod] meets
    there, if any. *)
Record FS := {
  stat : gostring -> FileInfo + error;
  chmodError : gostring -> option error
}.

Definition Stat (fs : FS) (p : gostring) : FileInfo + error := stat fs p.

Definition withPerm (mode : Z) (fi : FileInfo) : FileInfo :=
  {| IsDir := IsDir fi; Mode := Z.lor (Z.land (Mode fi) (Z.lnot 511)) mode |}.

Definition Chmod (fs : FS) (p : gostring) (mode : Z) : FS * option error :=
  match chmodError fs p with
  | Some e => (fs, Some e)
  | None =>
      ({| stat := fun q =>
                    if bool_decide (q = p)
                    then match stat fs q with
                         | inl fi => inl (withPerm mode fi)
                         | inr e => inr e
                         end
                    else stat fs q;
          chmodError := chmodError fs |}, None)
  end.

End os.

(** ** Messages and commands of the Bubble Tea runtime *)

Inductive step := stepEmail | stepAPI | stepDomains | stepConfirm | stepRunning | stepDone.

(** What the closure returned by [startProcessCmd] holds on to. *)
Record Process := {
  proc_script : gostring;
  proc_email : gostring;
  proc_apiKey : gostring;
  proc_rawDomains : gostring
}.

Inductive Msg (Key LibMsg : Type) :=
| KeyMsg (k : Key)
| tickMsg
| doneMsg (err : option error)
| lineMsg (s : gostring)
| libMsg (x : LibMsg).
Arguments KeyMsg {Key LibMsg} k.
Arguments tickMsg {Key LibMsg}.
Arguments doneMsg {Key LibMsg} err.
Arguments lineMsg {Key LibMsg} s.
Arguments libMsg {Key LibMsg} x.

Inductive Cmd (LibCmd : Type) :=
| Quit                              (* tea.Quit *)
| nextTick                          (* tea.Tick(120ms) delivering tickMsg *)
| startProcess (p : Process)        (* the closure of startProcessCmd *)
| Batch (cs : list (Cmd LibCmd))    (* tea.Batch *)
| libCmd (c : LibCmd).
Arguments Quit {LibCmd}.
Arguments nextTick {LibCmd}.
Arguments startProcess {LibCmd} p.
Arguments Batch {LibCmd} cs.
Arguments libCmd {LibCmd} c.

Inductive Context := ctxNil | ctxLive | ctxCanceled.

(** The widgets of [bubbles], the keys of [bubbletea] and the styles of
    [lipgloss]: what the program uses of them. *)
Class Bubbles := {
  Key : Type;
  Key_String : Key -> gostring;
  LibMsg : Type;
  LibCmd : Type;

  textinput_Model : Type;
  textinput_New : textinput_Model;
  textinput_SetPlaceholder : textinput_Model -> gostring -> textinput_Model;
  textinput_SetPrompt : textinput_Model -> gostring -> textinput_Model;
  textinput_SetEchoPassword : textinput_Model -> N -> textinput_Model;
  textinput_SetValue : textinput_Model -> gostring -> textinput_Model;
  textinput_Focus : textinput_Model -> textinput_Model;
  textinput_Value : textinput_Model -> gostring;
  textinput_Update :
    textinput_Model -> Msg Key LibMsg -> textinput_Model * option (Cmd LibCmd);

  textarea_Model : Type;
  textarea_New : textarea_Model;
  textarea_SetPlaceholder : textarea_Model -> gostring -> textarea_Model;
  textarea_SetShowLineNumbers : textarea_Model -> bool -> textarea_Model;
  textarea_SetHeight : textarea_Model -> nat -> textarea_Model;
  textarea_SetCharLimit : textarea_Model -> nat -> textarea_Model;
  textarea_SetValue : textarea_Model -> gostring -> textarea_Model;
  textarea_Focus : textarea_Model -> textarea_Model;
  textarea_Value : textarea_Model -> gostring;
  textarea_Update :
    textarea_Model -> Msg Key LibMsg -> textarea_Model * option (Cmd LibCmd);

  spinner_Model : Type;
  spinner_New : spinner_Model;
  spinner_Update :
    spinner_Model -> Msg Key LibMsg -> spinner_Model * option (Cmd LibCmd);

  viewport_Model : Type;
  viewport_New : nat -> nat -> viewport_Model;
  viewport_SetContent : viewport_Model -> gostring -> viewport_Model;
  viewport_GotoBottom : viewport_Model -> viewport_Model;
  viewport_LineDown : viewport_Model -> nat -> viewport_Model;
  viewport_LineUp : viewport_Model -> nat -> viewport_Model;

  lipgloss_Style : Type;
  lipgloss_NewStyle : lipgloss_Style;
  lipgloss_Bold : lipgloss_Style -> bool -> lipgloss_Style;
  lipgloss_Foreground : lipgloss_Style -> gostring -> lipgloss_Style;
  lipgloss_Render : lipgloss_Style -> gostring -> gostring
}.

Abbreviation msg_t := (Msg Key LibMsg).
Abbreviation cmd_t := (Cmd LibCmd).

(** ** The session *)

Record model `{Bubbles} := {
  scriptPath : gostring;  (* config *)
  email : textinput_Model;  (* inputs *)
  apiKey : textinput_Model;
  domArea : textarea_Model;
  normalized : list gostring;  (* parsed/normalized preview *)
  stage : step;  (* run state *)
  spinner : spinner_Model;
  viewport : viewport_Model;
  lines : list gostring;  (* chan string, capacity 4096: the queued lines *)
  done : option (option error);  (* chan error, capacity 1: the value in the slot *)
  ctx : Context;  (* subprocess *)
  cancel : bool;  (* whether the cancel function is non-nil *)
  cmd : option Process;
  logBuf : gostring;  (* output cache *)
  titleStyle : lipgloss_Style;  (* styles *)
  helpStyle : lipgloss_Style;
  okStyle : lipgloss_Style;
  errStyle : lipgloss_Style
}.

Definition set_email `{Bubbles} (v : textinput_Model) (m : model) : model :=
  {| scriptPath := scriptPath m;
     email := v;
     apiKey := apiKey m;
     domArea := domArea m;
     normalized := normalized m;
     stage := stage m;
     spinner := spinner m;
     viewport := viewport m;
     lines := lines m;
     done := done m;
     ctx := ctx m;
     cancel := cancel m;
     cmd := cmd m;
     logBuf := logBuf m;
     titleStyle := titleStyle m;
     helpStyle := helpStyle m;
     okStyle := okStyle m;
     errStyle := errStyle m |}.

Definition set_apiKey `{Bubbles} (v : textinput_Model) (m : model) : model :=
  {| scriptPath := scriptPath m;
     email := email m;
     apiKey := v;
     domArea := domArea m;
     normalized := normalized m;
     stage := stage m;
     spinner := spinner m;
     viewport := viewport m;
     lines := lines m;
     done := done m;
     ctx := ctx m;
     cancel := cancel m;
     cmd := cmd m;
     logBuf := logBuf m;
     titleStyle := titleStyle m;
     helpStyle := helpStyle m;
     okStyle := okStyle m;
     errStyle := errStyle m |}.

Definition set_domArea `{Bubbles} (v : textarea_Model) (m : model) : model :=
  {| scriptPath := scriptPath m;
     email := email m;
     apiKey := apiKey m;
     domArea := v;
     normalized := normalized m;
     stage := stage m;
     spinner := spinner m;
     viewport := viewport m;
     lines := lines m;
     done := done m;
     ctx := ctx m;
     cancel := cancel m;
     cmd := cmd m;
     logBuf := logBuf m;
     titleStyle := titleStyle m;
     helpStyle := helpStyle m;
     okStyle := okStyle m;
     errStyle := errStyle m |}.

Definition set_normalized `{Bubbles} (v : list gostring) (m : model) : model :=
  {| scriptPath := scriptPath m;
     email := email m;
     apiKey := apiKey m;
     domArea := domArea m;
     normalized := v;
     stage := stage m;
     spinner := spinner m;
     viewport := viewport m;
     lines := lines m;
     done := done m;
     ctx := ctx m;
     cancel := cancel m;
     cmd := cmd m;
     logBuf := logBuf m;
     titleStyle := titleStyle m;
     helpStyle := helpStyle m;
     okStyle := okStyle m;
     errStyle := errStyle m |}.

Definition set_stage `{Bubbles} (v : step) (m : model) : model :=
  {| scriptPath := scriptPath m;
     email := email m;
     apiKey := apiKey m;
     domArea := domArea m;
     normalized := normalized m;
     stage := v;
     spinner := spinner m;
     viewport := viewport m;
     lines := lines m;
     done := done m;
     ctx := ctx m;
     cancel := cancel m;
     cmd := cmd m;
     logBuf := logBuf m;
     titleStyle := titleStyle m;
     helpStyle := helpStyle m;
     okStyle := okStyle m;
     errStyle := errStyle m |}.

Definition set_spinner `{Bubbles} (v : spinner_Model) (m : model) : model :=
  {| scriptPath := scriptPath m;
     email := email m;
     apiKey := apiKey m;
     domArea := domArea m;
     normalized := normalized m;
     stage := stage m;
     spinner := v;
     viewport := viewport m;
     lines := lines m;
     done := done m;
     ctx := ctx m;
     cancel := cancel m;
     cmd := cmd m;
     logBuf := logBuf m;
     titleStyle := titleStyle m;
     helpStyle := helpStyle m;
     okStyle := okStyle m;
     errStyle := errStyle m |}.

Definition set_viewport `{Bubbles} (v : viewport_Model) (m : model) : model :=
  {| scriptPath := scriptPath m;
     email := email m;
     apiKey := apiKey m;
     domArea := domArea m;
     normalized := normalized m;
     stage := stage m;
     spinner := spinner m;
     viewport := v;
     lines := lines m;
     done := done m;
     ctx := ctx m;
     cancel := cancel m;
     cmd := cmd m;
     logBuf := logBuf m;
     titleStyle := titleStyle m;
     helpStyle := helpStyle m;
     okStyle := okStyle m;
     errStyle := errStyle m |}.

Definition set_lines `{Bubbles} (v : list gostring) (m : model) : model :=
  {| scriptPath := scriptPath m;
     email := email m;
     apiKey := apiKey m;
     domArea := domArea m;
     normalized := normalized m;
     stage := stage m;
     spinner := spinner m;
     viewport := viewport m;
     lines := v;
     done := done m;
     ctx := ctx m;
     cancel := cancel m;
     cmd := cmd m;
     logBuf := logBuf m;
     titleStyle := titleStyle m;
     helpStyle := helpStyle m;
     okStyle := okStyle m;
     errStyle := errStyle m |}.

Definition set_done `{Bubbles} (v : option (option error)) (m : model) : model :=
  {| scriptPath := scriptPath m;
     email := email m;
     apiKey := apiKey m;
     domArea := domArea m;
     normalized := normalized m;
     stage := stage m;
     spinner := spinner m;
     viewport := viewport m;
     lines := lines m;
     done := v;
     ctx := ctx m;
     cancel := cancel m;
     cmd := cmd m;
     logBuf := logBuf m;
     titleStyle := titleStyle m;
     helpStyle := helpStyle m;
     okStyle := okStyle m;
     errStyle := errStyle m |}.

Definition set_ctx `{Bubbles} (v : Context) (m : model) : model :=
  {| scriptPath := scriptPath m;
     email := email m;
     apiKey := apiKey m;
     domArea := domArea m;
     normalized := normalized m;
     stage := stage m;
     spinner := spinner m;
     viewport := viewport m;
     lines := lines m;
     done := done m;
     ctx := v;
     cancel := cancel m;
     cmd := cmd m;
     logBuf := logBuf m;
     titleStyle := titleStyle m;
     helpStyle := helpStyle m;
     okStyle := okStyle m;
     errStyle := errStyle m |}.

Definition set_cancel `{Bubbles} (v : bool) (m : model) : model :=
  {| scriptPath := scriptPath m;
     email := email m;
     apiKey := apiKey m;
     domArea := domArea m;
     normalized := normalized m;
     stage := stage m;
     spinner := spinner m;
     viewport := viewport m;
     lines := lines m;
     done := done m;
     ctx := ctx m;
     cancel := v;
     cmd := cmd m;
     logBuf := logBuf m;
     titleStyle := titleStyle m;
     helpStyle := helpStyle m;
     okStyle := okStyle m;
     errStyle := errStyle m |}.

Definition set_logBuf `{Bubbles} (v : gostring) (m : model) : model :=
  {| scriptPath := scriptPath m;
     email := email m;
     apiKey := apiKey m;
     domArea := domArea m;
     normalized := normalized m;
     stage := stage m;
     spinner := spinner m;
     viewport := viewport m;
     lines := lines m;
     done := done m;
     ctx := ctx m;
     cancel := cancel m;
     cmd := cmd m;
     logBuf := v;
     titleStyle := titleStyle m;
     helpStyle := helpStyle m;
     okStyle := okStyle m;
     errStyle := errStyle m |}.

Section Session.
Context `{B : Bubbles}.

(** The case tables of [unicode.ToLower], see [strings.ToLower]. *)
Variable unicodeLower : gostring -> gostring.

Definition initialModel (getenv : gostring -> gostring) (script : gostring) : model :=
  let email := textinput_New in
  let email := textinput_SetPlaceholder email (str "you@example.com") in
  let email := textinput_SetPrompt email (str "Cloudways email: ") in
  let email := textinput_Focus email in
  let email :=
    let v := getenv (str "CW_EMAIL") in
    if bool_decide (v = []) then email else textinput_SetValue email v in
  let api := textinput_New in
  let api := textinput_SetPrompt api (str "Cloudways API key: ") in
  let api := textinput_SetEchoPassword api 8226%N in
  let api :=
    let v := getenv (str "CW_API_KEY") in
    if bool_decide (v = []) then api else textinput_SetValue api v in
  let dom := textarea_New in
  let dom := textarea_SetPlaceholder dom
               (str "Paste domain(s) here (any format). Press Ctrl+D when done.") in
  let dom := textarea_SetShowLineNumbers dom false in
  let dom := textarea_SetHeight dom 10 in
  let dom := textarea_SetCharLimit dom 0 in
  let dom :=
    let v := getenv (str "CW_DOMAINS") in
    if bool_decide (v = []) then dom else textarea_SetValue dom v in
  {| scriptPath := script;
     email := email;
     apiKey := api;
     domArea := dom;
     normalized := [];
     stage := stepEmail;
     spinner := spinner_New;
     viewport := viewport_New 100 18;
     lines := [];
     done := None;
     ctx := ctxNil;
     cancel := false;
     cmd := None;
     logBuf := [];
     titleStyle := lipgloss_Bold lipgloss_NewStyle true;
     helpStyle := lipgloss_Foreground lipgloss_NewStyle (str "245");
     okStyle := lipgloss_Foreground lipgloss_NewStyle (str "42");
     errStyle := lipgloss_Foreground lipgloss_NewStyle (str "196") |}.

Definition appendLogLine (m : model) (s : gostring) : model :=
  if bool_decide (s = []) then m
  else
    let buf := if (0 <? length (logBuf m))%nat then logBuf m ++ [nl] else logBuf m in
    let buf := buf ++ s in
    let m := set_logBuf buf m in
    let m := set_viewport (viewport_SetContent (viewport m) buf) m in
    set_viewport (viewport_GotoBottom (viewport m)) m.

Definition startProcessCmd (m : model) : cmd_t :=
  startProcess
    {| proc_script := scriptPath m;
       proc_email := textinput_Value (email m);
       proc_apiKey := textinput_Value (apiKey m);
       proc_rawDomains := textarea_Value (domArea m) |}.

Definition assertExecutable (fs : os.FS) (p : gostring) : os.FS * option error :=
  if bool_decide (p = []) then (fs, Some (errorString (str "script path is empty")))
  else
    match os.Stat fs p with
    | inr err =>
        (fs, Some (wrapError (str "script not found at " ++ p ++ str ": " ++ Error err) err))
    | inl fi =>
        if os.IsDir fi then (fs, Some (errorString (p ++ str " is a directory")))
        else if (Z.land (os.Mode fi) 73 =? 0)%Z
             then ((os.Chmod fs p 493).1, None)
             else (fs, None)
    end.

(** The [for i := 0; i < 200; i++] loop of the tick: one queued line per
    round, and out of the loop as soon as the queue is empty. *)
Fixpoint drain (rounds : nat) (m : model) : model :=
  match rounds with
  | O => m
  | S rounds' =>
      match lines m with
      | ln :: rest => drain rounds' (appendLogLine (set_lines rest m) ln)
      | [] => m
      end
  end.

Definition keyIs (k : gostring) (names : list string) : bool :=
  existsb (fun n => bool_decide (k = str n)) names.

Definition Update (fs : os.FS) (m : model) (msg : msg_t) : model * option cmd_t * os.FS :=
  match stage m with
  | stepEmail =>
      let widget :=
        let '(w, c) := textinput_Update (email m) msg in (set_email w m, c, fs) in
      match msg with
      | KeyMsg k =>
          let k := Key_String k in
          if keyIs k ["q"; "ctrl+c"]%string then (m, Some Quit, fs)
          else if keyIs k ["enter"]%string then
            if bool_decide (strings.TrimSpace (textinput_Value (email m)) = [])
            then (m, None, fs)
            else
              let m := set_stage stepAPI m in
              let m := set_apiKey (textinput_Focus (apiKey m)) m in
              (m, None, fs)
          else widget
      | _ => widget
      end
  | stepAPI =>
      let widget :=
        let '(w, c) := textinput_Update (apiKey m) msg in (set_apiKey w m, c, fs) in
      match msg with
      | KeyMsg k =>
          let k := Key_String k in
          if keyIs k ["q"; "ctrl+c"]%string then (m, Some Quit, fs)
          else if keyIs k ["esc"]%string then
            let m := set_stage stepEmail m in
            let m := set_email (textinput_Focus (email m)) m in
            (m, None, fs)
          else if keyIs k ["enter"]%string then
            if bool_decide (strings.TrimSpace (textinput_Value (apiKey m)) = [])
            then (m, None, fs)
            else
              let m := set_stage stepDomains m in
              let m := set_domArea (textarea_Focus (domArea m)) m in
              (m, None, fs)
          else widget
      | _ => widget
      end
  | stepDomains =>
      let widget :=
        let '(w, c) := textarea_Update (domArea m) msg in (set_domArea w m, c, fs) in
      match msg with
      | KeyMsg k =>
          let k := Key_String k in
          if keyIs k ["q"; "ctrl+c"]%string then (m, Some Quit, fs)
          else if keyIs k ["esc"]%string then
            let m := set_stage stepAPI m in
            let m := set_apiKey (textinput_Focus (apiKey m)) m in
            (m, None, fs)
          else if keyIs k ["ctrl+d"]%string then
            let m := set_normalized (normalizeDomains unicodeLower (textarea_Value (domArea m))) m in
            let m := set_stage stepConfirm m in
            (m, None, fs)
          else widget
      | _ => widget
      end
  | stepConfirm =>
      match msg with
      | KeyMsg k =>
          let k := Key_String k in
          if keyIs k ["q"; "ctrl+c"]%string then (m, Some Quit, fs)
          else if keyIs k ["b"]%string then
            let m := set_stage stepAPI m in
            let m := set_apiKey (textinput_Focus (apiKey m)) m in
            (m, None, fs)
          else if keyIs k ["n"]%string then
            let m := set_stage stepDomains m in
            let m := set_domArea (textarea_Focus (domArea m)) m in
            (m, None, fs)
          else if keyIs k ["y"]%string then
            match assertExecutable fs (scriptPath m) with
            | (fs, Some err) =>
                let m := set_viewport
                           (viewport_SetContent (viewport m)
                              (lipgloss_Render (errStyle m) (Error err))) m in
                let m := set_stage stepDone m in
                (m, None, fs)
            | (fs, None) =>
                let m := set_stage stepRunning m in
                let m := set_viewport (viewport_SetContent (viewport m) []) m in
                let m := set_cancel true (set_ctx ctxLive m) in
                (m, Some (Batch [startProcessCmd m; nextTick]), fs)
            end
          else (m, None, fs)
      | _ => (m, None, fs)
      end
  | stepRunning =>
      match msg with
      | KeyMsg k =>
          let k := Key_String k in
          if keyIs k ["q"; "ctrl+c"]%string then
            let m := if cancel m then set_ctx ctxCanceled m else m in
            (m, Some Quit, fs)
          else if keyIs k ["pgdown"; " "; "j"; "down"]%string then
            (set_viewport (viewport_LineDown (viewport m) 3) m, None, fs)
          else if keyIs k ["pgup"; "k"; "up"]%string then
            (set_viewport (viewport_LineUp (viewport m) 3) m, None, fs)
          else (m, None, fs)
      | tickMsg =>
          let m := drain 200 m in
          match done m with
          | Some err =>
              let m := set_done None m in
              let m :=
                match err with
                | Some e =>
                    if negb (errors_Is_Canceled e)
                    then appendLogLine m
                           (lipgloss_Render (errStyle m) (str "Process error: " ++ Error e))
                    else appendLogLine m (lipgloss_Render (okStyle m) (str "Done."))
                | None => appendLogLine m (lipgloss_Render (okStyle m) (str "Done."))
                end in
              let m := set_stage stepDone m in
              (m, None, fs)
          | None => (m, Some nextTick, fs)
          end
      | _ =>
          let '(w, c) := spinner_Update (spinner m) msg in
          (set_spinner w m, c, fs)
      end
  | stepDone =>
      match msg with
      | KeyMsg k =>
          let k := Key_String k in
          if keyIs k ["q"; "ctrl+c"]%string then (m, Some Quit, fs)
          else (m, None, fs)
      | _ => (m, None, fs)
      end
  end.

(** ** The process runner

    What the outside world decides for one run of the closure returned by
    [startProcessCmd]: whether [cmd.Start] fails, the lines the scanner
    goroutine reads from the merged output, and what [cmd.Wait] returns. *)
Record Outcome := {
  startErr : option error;
  scanned : list gostring;
  waitErr : option error
}.

(** What one run does: the writes to the standard input of the process,
    whether that stream was closed, the sends on [m.lines] and on
    [m.done], and the message the closure returns to the runtime. *)
Record Run := {
  stdinWrites : list gostring;
  stdinClosed : bool;
  toLines : list gostring;
  toDone : list (option error);
  returned : msg_t
}.

Definition runProcess (p : Process) (o : Outcome) : Run :=
  match startErr o with
  | Some err =>
      {| stdinWrites := []; stdinClosed := false; toLines := []; toDone := [];
         returned := doneMsg (Some err) |}
  | None =>
      let w1 := strings.TrimSpace (proc_email p) ++ [nl] in
      let w2 := strings.TrimSpace (proc_apiKey p) ++ [nl] in
      let rawDomains := proc_rawDomains p in
      let rawDomains :=
        if negb (strings.HasSuffix rawDomains [nl]) then rawDomains ++ [nl]
        else rawDomains in
      {| stdinWrites := [w1; w2; rawDomains]; stdinClosed := true;
         toLines := scanned o; toDone := [];
         returned := doneMsg (waitErr o) |}
  end.

(** A send on the buffered channel [m.done]: it fills the empty slot. *)
Definition sendDone (m : model) (e : option error) : model :=
  match done m with
  | None => set_done (Some e) m
  | Some _ => m
  end.

(** ** The event loop

    The runtime hands messages to [Update] one at a time; in between, the
    scanner goroutine of a started process queues lines, and a finished
    run hands its message back. *)
Inductive event :=
| Deliver (msg : msg_t)
| Ran (p : Process) (o : Outcome).

Definition react (st : model * os.FS) (ev : event) : model * os.FS :=
  let '(m, fs) := st in
  match ev with
  | Deliver msg => let '(m', _, fs') := Update fs m msg in (m', fs')
  | Ran p o =>
      let r := runProcess p o in
      let m := set_lines (lines m ++ toLines r) m in
      let m := foldl sendDone m (toDone r) in
      let '(m', _, fs') := Update fs m (returned r) in (m', fs')
  end.

Definition reactAll (evs : list event) (st : model * os.FS) : model * os.FS :=
  foldl react st evs.

End Session.

(** ** A plain terminal

    The smallest instance of the widget interface: a key is its name, a
    text widget its text (a key of one byte is typed into it), the
    viewport its content, and a style the escape sequence put in front
    of the text. *)
Definition plainType (Key LibMsg LibCmd : Type) (keyString : Key -> gostring)
  (w : gostring) (msg : Msg Key LibMsg) : gostring * option (Cmd LibCmd) :=
  match msg with
  | KeyMsg k => (if bool_decide (length (keyString k) = 1%nat) then w ++ keyString k else w, None)
  | _ => (w, None)
  end.

Definition plainBubbles : Bubbles := {|
  Key := gostring;
  Key_String := fun k => k;
  LibMsg := unit;
  LibCmd := unit;
  textinput_Model := gostring;
  textinput_New := [];
  textinput_SetPlaceholder := fun w _ => w;
  textinput_SetPrompt := fun w _ => w;
  textinput_SetEchoPassword := fun w _ => w;
  textinput_SetValue := fun _ v => v;
  textinput_Focus := fun w => w;
  textinput_Value := fun w => w;
  textinput_Update := plainType gostring unit unit (fun k => k);
  textarea_Model := gostring;
  textarea_New := [];
  textarea_SetPlaceholder := fun w _ => w;
  textarea_SetShowLineNumbers := fun w _ => w;
  textarea_SetHeight := fun w _ => w;
  textarea_SetCharLimit := fun w _ => w;
  textarea_SetValue := fun _ v => v;
  textarea_Focus := fun w => w;
  textarea_Value := fun w => w;
  textarea_Update := plainType gostring unit unit (fun k => k);
  spinner_Model := unit;
  spinner_New := tt;
  spinner_Update := fun w _ => (w, None);
  viewport_Model := gostring;
  viewport_New := fun _ _ => [];
  viewport_SetContent := fun _ s => s;
  viewport_GotoBottom := fun v => v;
  viewport_LineDown := fun v _ => v;
  viewport_LineUp := fun v _ => v;
  lipgloss_Style := gostring;
  lipgloss_NewStyle := [];
  lipgloss_Bold := fun st _ => st;
  lipgloss_Foreground := fun _ c => str "<" ++ c ++ str ">";
  lipgloss_Render := fun st s => st ++ s
|}.

(** ** A terminal with rune keys

    As the plain terminal, but a key says whether it carries runes (typed
    or pasted text) or is a named key, and whether Alt was held. The
    string of a key is its runes or its name, behind [alt+] when Alt was
    held, as [Key.String] of Bubble Tea gives it. A text widget puts the
    runes of a key at the end of its text, however many they are and
    whether Alt was held or not, and ignores a named key, as the text
    input of Bubbles does with a key that is none of its own bindings
    (those bindings, such as [alt+b], are left out here). *)
Record runeKey := { isRunes : bool; isAlt : bool; keyText : gostring }.




(** ASCII-only text never reaches the case tables. *)
Definition noTables (s : gostring) : gostring := s.

(** A file system with one regular file, [/tmp/domain-based-backup.sh],
    of the given mode, on which [chmod] fails with [chmodErr] if given. *)
Definition scriptFile : gostring := str "/tmp/domain-based-backup.sh".

Definition oneScript (mode : Z) (chmodErr : option error) : os.FS :=
  {| os.stat := fun p =>
       if bool_decide (p = scriptFile)
       then inl {| os.IsDir := false; os.Mode := mode |}
       else inr (errorString (str "no such file or directory"));
     os.chmodError := fun _ => chmodErr |}.

(** The environment the bootstrap script may set: every field is
    pre-filled. *)
Definition prefilled (name : gostring) : gostring :=
  if bool_decide (name = str "CW_EMAIL") then str "ops@example.com"
  else if bool_decide (name = str "CW_API_KEY") then str " s3cr3t "
  else if bool_decide (name = str "CW_DOMAINS") then str "www.Example.com b.org" ++ [nl; nl]
  else [].

Definition session0 : model (H := plainBubbles) := initialModel prefilled scriptFile.

Definition press (name : string) : Msg gostring unit := KeyMsg (str name).

Definition key (name : string) : event (B := plainBubbles) :=
  Deliver (B := plainBubbles) (press name).



Definition altRune (text : string) : Msg runeKey unit :=
  KeyMsg {| isRunes := true; isAlt := true; keyText := str text |}.

(** The process that [y] starts from [session0]. *)
Definition process0 : Process :=
  {| proc_script := scriptFile;
     proc_email := str "ops@example.com";
     proc_apiKey := str " s3cr3t ";
     proc_rawDomains := str "www.Example.com b.org" ++ [nl; nl] |}.

(** A run that starts, prints two lines with a blank one in between, and
    exits with status 0. *)
Definition exitZero : Outcome :=
  {| startErr := None;
     scanned := [str "Backing up example.com"; []; str "Backing up b.org"];
     waitErr := None |}.

(** ** Notions the statements use *)

(** [s] is made of white space only. *)
Inductive AllSpace : gostring -> Prop :=
| AllSpace_nil : AllSpace []
| AllSpace_app w s : w ∈ strings.spaces -> AllSpace s -> AllSpace (w ++ s).



(** [t] occurs in [s]. *)
Definition contains (t s : gostring) : Prop := exists a b, s = a ++ t ++ b.

(** [s] ends in one newline, and in one only. *)
Definition endsInOneNewline (s : gostring) : bool :=
  strings.HasSuffix s [nl] && negb (strings.HasSuffix s [nl; nl]).

(** The transitions between stages. *)
Inductive transition : step -> step -> Prop :=
| Email_API : transition stepEmail stepAPI
| API_Email : transition stepAPI stepEmail
| API_Domains : transition stepAPI stepDomains
| Domains_API : transition stepDomains stepAPI
| Domains_Confirm : transition stepDomains stepConfirm
| Confirm_API : transition stepConfirm stepAPI
| Confirm_Domains : transition stepConfirm stepDomains
| Confirm_Running : transition stepConfirm stepRunning
| Confirm_Done : transition stepConfirm stepDone
| Running_Done : transition stepRunning stepDone.

(** The inputs a stage matches, quitting apart. *)
Definition matched `{Bubbles} (st : step) (msg : msg_t) : bool :=
  match msg with
  | KeyMsg k =>
      let k := Key_String k in
      match st with
      | stepEmail => keyIs k ["enter"]%string
      | stepAPI => keyIs k ["esc"]%string || keyIs k ["enter"]%string
      | stepDomains => keyIs k ["esc"]%string || keyIs k ["ctrl+d"]%string
      | stepConfirm =>
          keyIs k ["b"]%string || keyIs k ["n"]%string || keyIs k ["y"]%string
      | stepRunning | stepDone => false
      end
  | tickMsg => match st with stepRunning => true | _ => false end
  | _ => false
  end.

Definition isQuit `{Bubbles} (msg : msg_t) : bool :=
  match msg with
  | KeyMsg k => keyIs (Key_String k) ["q"; "ctrl+c"]%string
  | _ => false
  end.

(** The line the tick writes when it finds the completion slot filled. *)
Definition finalStatus `{Bubbles} (m : model) (err : option error) : gostring :=
  match err with
  | Some e =>
      if errors_Is_Canceled e
      then lipgloss_Render (okStyle m) (str "Done.")
      else lipgloss_Render (errStyle m) (str "Process error: " ++ Error e)
  | None => lipgloss_Render (okStyle m) (str "Done.")
  end.

(** The separator [appendLogLine] writes in front of a line. *)
Definition separator (buf : gostring) : gostring :=
  if bool_decide (buf = []) then [] else [nl].

(** [p] is a regular file without any executable bit, and [chmod] fails
    on it. *)
Definition cannotBeMadeExecutable (fs : os.FS) (p : gostring) : Prop :=
  exists fi, os.Stat fs p = inl fi /\ os.IsDir fi = false
             /\ Z.land (os.Mode fi) 73 = 0%Z /\ (os.Chmod fs p 493).2 <> None.

(** The strings a pattern describes: [matches r m] when [m] is in the
    language of [r]. *)
Fixpoint matches (r : regexp.regex) (m : gostring) : Prop :=
  match r with
  | regexp.Class p => exists c, m = [c] /\ p c = true
  | regexp.Cat r1 r2 => exists m1 m2, m = m1 ++ m2 /\ matches r1 m1 /\ matches r2 m2
  | regexp.Star r1 => exists ms, m = concat ms /\ Forall (matches r1) ms
  | regexp.Plus r1 => exists ms, ms <> [] /\ m = concat ms /\ Forall (matches r1) ms
  | regexp.AtLeast n r1 =>
      exists ms, (n <= length ms)%nat /\ m = concat ms /\ Forall (matches r1) ms
  end.

(** A matcher that only ever cuts a string of [L] off the input. *)
Definition sound (step : regexp.matcher) (L : gostring -> Prop) : Prop :=
  forall s k x, step s k = Some x -> exists m rest, s = m ++ rest /\ L m /\ k rest = Some x.

(** A matcher that uses its continuation only through what it returns. *)
Definition extensional (step : regexp.matcher) : Prop :=
  forall s k1 k2, (forall s', k1 s' = k2 s') -> step s k1 = step s k2.

(** The input does not go on with a byte of the class [p]. *)
Definition notHead (p : ascii -> bool) (s : gostring) : Prop :=
  match s with
  | c :: _ => p c = false
  | [] => True
  end.

(** A bare host name: labels of [[a-z0-9-]], each with its dot, and a last
    label of two letters or more. *)
Definition label (l : gostring) : Prop := l <> [] /\ Forall (fun c => labelChar c = true) l.

Definition tld (t : gostring) : Prop :=
  (2 <= length t)%nat /\ Forall (fun c => isLower c = true) t.

Definition dotted (ls : list gostring) : gostring :=
  concat (map (fun l => l ++ str ".") ls).

Definition hostname (m : gostring) : Prop :=
  exists ls t, ls <> [] /\ Forall label ls /\ tld t /\ m = dotted ls ++ t.

(** The bytes of host names, and those of host names joined by spaces or
    newlines. *)
Definition hostChar (c : ascii) : bool := labelChar c || isChar "." c.

Definition plainChar (c : ascii) : bool := hostChar c || isChar " " c || isChar nl c.

(** What the loop of the normalizer puts into its result: a match of the
    pattern, without the [www.] it may start with. *)
Definition origin (d : gostring) : Prop :=
  exists m, hostname m /\ d = strings.TrimPrefix m (str "www.").

(** An element the normalizer returns again as it is: it still has a dot
    and does not start with [www.]. *)
Definition settled (d : gostring) : Prop :=
  "."%char ∈ d /\ strings.HasPrefix d (str "www.") = false.

(** ** The view

    What [View] needs of the widgets: how each one renders itself. *)
Class BubblesView `{Bubbles} := {
  textinput_View : textinput_Model -> gostring;
  textarea_View : textarea_Model -> gostring;
  spinner_View : spinner_Model -> gostring;
  viewport_View : viewport_Model -> gostring
}.

(** The verb [%d] of [fmt.Sprintf] on a length. *)
Definition itoa (n : nat) : gostring := str (NilZero.string_of_uint (Nat.to_uint n)).

(** The em dash, the ellipsis and the bullet of the texts, in UTF-8. *)
Definition emDash : gostring := [chr 226; chr 128; chr 148].

Definition ellipsis : gostring := [chr 226; chr 128; chr 166].

Definition bullet : gostring := str "  " ++ [chr 226; chr 128; chr 162] ++ str " ".

Definition View `{BubblesView} (m : model) : gostring :=
  match stage m with
  | stepEmail =>
      lipgloss_Render (titleStyle m) (str "CW Backup " ++ emDash ++ str " Bubble Tea TUI")
      ++ [nl; nl] ++ textinput_View (email m) ++ [nl; nl]
      ++ lipgloss_Render (helpStyle m) (str "Enter to continue, q to quit.")
  | stepAPI =>
      lipgloss_Render (titleStyle m) (str "CW Backup " ++ emDash ++ str " Bubble Tea TUI")
      ++ [nl; nl] ++ textinput_View (apiKey m) ++ [nl; nl]
      ++ lipgloss_Render (helpStyle m) (str "Enter to continue, q to quit, Esc to go back.")
  | stepDomains =>
      lipgloss_Render (titleStyle m) (str "CW Backup " ++ emDash ++ str " Paste Domains")
      ++ [nl; nl] ++ textarea_View (domArea m) ++ [nl; nl]
      ++ lipgloss_Render (helpStyle m) (str "Ctrl+D when done. q to quit, Esc to go back.")
  | stepConfirm =>
      let list :=
        if bool_decide (length (normalized m) = 0%nat)
        then lipgloss_Render (errStyle m) (str "No valid domains parsed.")
        else bullet ++ strings.Join (normalized m) ([nl] ++ bullet) in
      lipgloss_Render (titleStyle m) (str "Confirm") ++ [nl; nl]
      ++ (str "Email: " ++ textinput_Value (email m) ++ [nl]
          ++ str "Domains (" ++ itoa (length (normalized m)) ++ str "):" ++ [nl]
          ++ list ++ [nl; nl])
      ++ lipgloss_Render (helpStyle m) (str "[y] run  [n] edit domains  [b] back")
  | stepRunning =>
      let header :=
        lipgloss_Render (titleStyle m) (str "Running backup" ++ ellipsis ++ str " ")
        ++ spinner_View (spinner m) in
      header ++ [nl; nl] ++ viewport_View (viewport m) ++ [nl; nl]
      ++ lipgloss_Render (helpStyle m) (str "q/ctrl+c to cancel. PgUp/PgDn to scroll.")
  | stepDone =>
      let header := lipgloss_Render (titleStyle m) (str "Finished") in
      header ++ [nl; nl] ++ viewport_View (viewport m) ++ [nl; nl]
      ++ lipgloss_Render (helpStyle m) (str "Press q to exit.")
  end.

Definition plainViews : BubblesView (H := plainBubbles) := {|
  textinput_View := fun w : textinput_Model (Bubbles := plainBubbles) =>
                      str "> " ++ (w : gostring);
  textarea_View := fun w : textarea_Model (Bubbles := plainBubbles) => (w : gostring);
  spinner_View := fun _ => str ".";
  viewport_View := fun v : viewport_Model (Bubbles := plainBubbles) => (v : gostring)
|}.

(** ** The script path of [main]

    [filepath.IsAbs] is the one of Unix; [filepath.Abs], which asks the
    system for the working directory, is the parameter [abs]. [args] is
    [os.Args]. *)
Definition defaultScript : gostring := str "./domain-based-backup.sh".

Definition filepath_IsAbs (p : gostring) : bool := strings.HasPrefix p (str "/").

Definition scriptOfMain (getenv : gostring -> gostring) (args : list gostring)
  (abs : gostring -> gostring + error) : gostring :=
  let script := getenv (str "CW_BACKUP_SCRIPT") in
  let script :=
    if bool_decide (script = []) then
      match args with
      | _ :: arg :: _ => arg
      | _ => defaultScript
      end
    else script in
  if negb (filepath_IsAbs script) then
    match abs script with
    | inl a => a
    | inr _ => script
    end
  else script.

(** [filepath.Abs] in the working directory [/root]: an absolute path is
    kept, any other is put behind the directory. *)
Definition absInRoot (p : gostring) : gostring + error :=
  inl (if filepath_IsAbs p then p
       else if bool_decide (p = []) then str "/root" else str "/root/" ++ p).

(** ** More notions the statements use *)

(** The match of the pattern in a token, without its [www.] in front, if
    the token has one. *)
Definition candidate (tok : gostring) : option gostring :=
  let m := regexp.FindString hostRe tok in
  if bool_decide (m = []) then None else Some (strings.TrimPrefix m (str "www.")).

(** A list without the later copies of its elements. *)
Fixpoint firstSeen (l : list gostring) : list gostring :=
  match l with
  | [] => []
  | x :: l' => x :: filter (fun y => y <> x) (firstSeen l')
  end.

(** The tokens the normalizer loops over. *)
Definition tokens (unicodeLower : gostring -> gostring) (s : gostring) : list gostring :=
  strings.Fields (strings.Replace repls (strings.ToLower unicodeLower s)).

(** The bytes that end a token: ASCII white space, and what the replacer
    turns into a space. *)
Definition isSep (c : ascii) : bool :=
  existsb (fun x => bool_decide (c = x))
    [chr 9; chr 10; chr 11; chr 12; chr 13; " "; ","; ";"; "|"; "/"]%char.

(** What the replacer leaves of a separator: a space, or the byte itself. *)
Definition spaced (sp : ascii) : ascii :=
  match strings.lookup repls [sp] with
  | Some _ => " "%char
  | None => sp
  end.

(** The fields a reachable session has filled in: the email past the
    Email stage, the API key past the API stage; the preview past the
    Domains stage; the cancel function while Running. *)
Definition filled `{Bubbles} (unicodeLower : gostring -> gostring) (m : model) : Prop :=
  (stage m <> stepEmail -> ~ AllSpace (textinput_Value (email m)))
  /\ (stage m <> stepEmail -> stage m <> stepAPI ->
      ~ AllSpace (textinput_Value (apiKey m)))
  /\ (stage m = stepConfirm \/ stage m = stepRunning \/ stage m = stepDone ->
      normalized m = normalizeDomains unicodeLower (textarea_Value (domArea m)))
  /\ (stage m = stepRunning -> cancel m = true /\ ctx m <> ctxNil).

(** * Properties *)

Example TrimSpace_ex :
  strings.TrimSpace (str "  a b	 ") = str "a b".
Proof. vm_compute. reflexivity. Qed.

Example TrimSpace_unicode :
  strings.TrimSpace ([chr 194; chr 160] ++ str "a b" ++ [chr 227; chr 128; chr 128; chr 10])
  = str "a b".
Proof. vm_compute. reflexivity. Qed.

Example Fields_ex :
  strings.Fields (str " a.com  b  c ") = [str "a.com"; str "b"; str "c"].
Proof. vm_compute. reflexivity. Qed.

Example normalize_scheme_path ul :
  normalizeDomains ul (str "https://Foo.Example.com/path?x=1") = [str "foo.example.com"].
Proof. vm_compute. reflexivity. Qed.

Example normalize_no_host ul :
  normalizeDomains ul (str "not a domain, just text") = [].
Proof. vm_compute. reflexivity. Qed.

Example normalize_leftmost ul :
  normalizeDomains ul (str "a.bc.d x.y1 user:pw@host.example.org:8080")
  = [str "a.bc"; str "host.example.org"].
Proof. vm_compute. reflexivity. Qed.

(** ** Facts about the [strings] functions *)

Section StringFacts.

Lemma cut_Some p s r : strings.cut p s = Some r <-> s = p ++ r.
Proof.
  revert s. induction p as [|a p IH]; intros s; simpl.
  - split; congruence.
  - destruct s as [|b s]; [split; discriminate|].
    case_bool_decide as Hab.
    + subst b. rewrite IH. split; congruence.
    + split; [discriminate|]. intros [= -> _]. congruence.
Qed.

Lemma cutAny_Some ws s r :
  strings.cutAny ws s = Some r -> exists w, w ∈ ws /\ s = w ++ r.
Proof.
  induction ws as [|w ws IH]; simpl; [discriminate|].
  destruct (strings.cut w s) as [r'|] eqn:Hc.
  - intros [= ->]. apply cut_Some in Hc. exists w. split; [left|done].
  - intros H. destruct (IH H) as (w' & Hin & ->). exists w'. split; [by right|done].
Qed.

Lemma spaces_nonempty w : w ∈ strings.spaces -> (1 <= length w)%nat.
Proof.
  unfold strings.spaces. intros H.
  repeat (apply elem_of_cons in H as [->|H]; [simpl; lia|]).
  by apply elem_of_nil in H.
Qed.

(** No white-space encoding starts another one, so a string that begins
    with one of them is cut exactly behind it. *)
Lemma leadingSpace_app w r : w ∈ strings.spaces -> strings.leadingSpace (w ++ r) = Some r.
Proof.
  unfold strings.spaces. intros H.
  repeat (apply elem_of_cons in H as [->|H]; [reflexivity|]).
  by apply elem_of_nil in H.
Qed.

Lemma leadingSpace_Some s r :
  strings.leadingSpace s = Some r -> exists w, w ∈ strings.spaces /\ s = w ++ r.
Proof. apply cutAny_Some. Qed.

Lemma trailingSpace_Some s r :
  strings.trailingSpace s = Some r -> exists w, w ∈ strings.spaces /\ s = r ++ w.
Proof.
  unfold strings.trailingSpace.
  destruct (strings.cutAny _ _) as [r'|] eqn:Hc; [|discriminate].
  intros [= <-]. apply cutAny_Some in Hc as (w' & Hin & Hs).
  apply list_elem_of_fmap in Hin as (w & -> & Hin).
  exists w. split; [done|].
  rewrite <- (rev_involutive s), Hs, rev_app_distr, rev_involutive. reflexivity.
Qed.

Lemma AllSpace_one w : w ∈ strings.spaces -> AllSpace w.
Proof. intros H. rewrite <- (app_nil_r w). by constructor; [|constructor]. Qed.

Lemma AllSpace_append a b : AllSpace a -> AllSpace b -> AllSpace (a ++ b).
Proof.
  induction 1 as [|w s Hw Hs IH]; intros Hb; [done|].
  rewrite <- app_assoc. constructor; auto.
Qed.

Lemma AllSpace_leading s : AllSpace s -> strings.leadingSpace s = None -> s = [].
Proof.
  destruct 1 as [|w s Hw Hs]; [done|].
  rewrite leadingSpace_app by done. discriminate.
Qed.

Lemma trimLeft_spec n s :
  (length s <= n)%nat ->
  exists ws, s = ws ++ strings.trimLeft n s /\ AllSpace ws
             /\ strings.leadingSpace (strings.trimLeft n s) = None.
Proof.
  revert s. induction n as [|n IH]; intros s Hn; simpl.
  - destruct s; [|simpl in Hn; lia]. exists []. repeat split. constructor.
  - destruct (strings.leadingSpace s) as [r|] eqn:Hl.
    + destruct (leadingSpace_Some _ _ Hl) as (w & Hw & ->).
      pose proof (spaces_nonempty _ Hw). rewrite length_app in Hn.
      destruct (IH r) as (ws & Hr & Hws & Hnone); [lia|].
      exists (w ++ ws). rewrite <- app_assoc, <- Hr. repeat split; [|done].
      by constructor.
    + exists []. repeat split; [constructor|done].
Qed.

Lemma trimRight_spec n s :
  (length s <= n)%nat ->
  exists ws, s = strings.trimRight n s ++ ws /\ AllSpace ws
             /\ strings.trailingSpace (strings.trimRight n s) = None.
Proof.
  revert s. induction n as [|n IH]; intros s Hn; simpl.
  - destruct s; [|simpl in Hn; lia].
    exists []. split; [done|]. split; [constructor|done].
  - destruct (strings.trailingSpace s) as [r|] eqn:Hl.
    + destruct (trailingSpace_Some _ _ Hl) as (w & Hw & ->).
      pose proof (spaces_nonempty _ Hw). rewrite length_app in Hn.
      destruct (IH r) as (ws & Hr & Hws & Hnone); [lia|].
      exists (ws ++ w). rewrite app_assoc, <- Hr. split; [done|]. split; [|done].
      apply AllSpace_append; [done|by apply AllSpace_one].
    + exists []. rewrite app_nil_r. split; [done|]. split; [constructor|done].
Qed.

(** [strings.TrimSpace] returns a part of its argument with white space
    on neither side, and only white space is cut off. *)
Lemma TrimSpace_spec s :
  exists ws1 ws2, s = ws1 ++ strings.TrimSpace s ++ ws2
                  /\ AllSpace ws1 /\ AllSpace ws2
                  /\ strings.trailingSpace (strings.TrimSpace s) = None
                  /\ (strings.TrimSpace s <> [] ->
                      strings.leadingSpace (strings.TrimSpace s) = None).
Proof.
  unfold strings.TrimSpace.
  destruct (trimLeft_spec (length s) s) as (ws1 & Hs & Hws1 & Hnone1); [done|].
  destruct (trimRight_spec (length (strings.trimLeft (length s) s))
              (strings.trimLeft (length s) s)) as (ws2 & Hs' & Hws2 & Hnone2); [done|].
  set (t := strings.trimLeft (length s) s) in *.
  set (u := strings.trimRight (length t) t) in *.
  exists ws1, ws2. rewrite <- Hs'. repeat split; try done.
  intros Hne.
  destruct (strings.leadingSpace u) as [r|] eqn:Hl; [|done].
  apply leadingSpace_Some in Hl as (w & Hw & Hl).
  rewrite Hs', Hl, <- app_assoc, leadingSpace_app in Hnone1 by done. done.
Qed.

Lemma trimLeft_AllSpace n s : AllSpace s -> (length s <= n)%nat -> strings.trimLeft n s = [].
Proof.
  intros H. revert n. induction H as [|w s Hw Hs IH]; intros n Hn.
  - by destruct n.
  - pose proof (spaces_nonempty _ Hw). rewrite length_app in Hn.
    destruct n as [|n]; [lia|]. simpl.
    rewrite leadingSpace_app by done. apply IH. lia.
Qed.

(** [strings.TrimSpace] leaves nothing exactly of the strings that are
    empty or made of white space only. *)
Lemma TrimSpace_nil_iff s : strings.TrimSpace s = [] <-> AllSpace s.
Proof.
  unfold strings.TrimSpace. split.
  - intros H.
    destruct (trimLeft_spec (length s) s) as (ws & Hs & Hws & Hnone); [done|].
    destruct (trimRight_spec (length (strings.trimLeft (length s) s))
                (strings.trimLeft (length s) s)) as (ws' & Hs' & Hws' & _); [done|].
    rewrite H in Hs'. simpl in Hs'. rewrite <- Hs' in Hws'.
    rewrite (AllSpace_leading _ Hws' Hnone), app_nil_r in Hs. by rewrite Hs.
  - intros H. by rewrite trimLeft_AllSpace.
Qed.

Lemma HasSuffix_snoc s c : strings.HasSuffix (s ++ [c]) [c] = true.
Proof.
  unfold strings.HasSuffix, strings.HasPrefix. rewrite rev_app_distr. simpl.
  by rewrite bool_decide_true.
Qed.

Lemma HasSuffix_snoc2 s c :
  strings.HasSuffix (s ++ [c]) [c; c] = strings.HasSuffix s [c].
Proof.
  unfold strings.HasSuffix, strings.HasPrefix. rewrite rev_app_distr. simpl.
  by rewrite bool_decide_true.
Qed.

Lemma HasSuffix_two_one s c :
  strings.HasSuffix s [c; c] = true -> strings.HasSuffix s [c] = true.
Proof.
  unfold strings.HasSuffix, strings.HasPrefix. simpl.
  destruct (rev s) as [|b t]; [done|]. simpl. by case_bool_decide.
Qed.

Lemma Join_snoc ls s sep :
  strings.Join (ls ++ [s]) sep
  = strings.Join ls sep ++ (if bool_decide (ls = []) then [] else sep) ++ s.
Proof.
  induction ls as [|e ls IH]; [done|].
  destruct ls as [|e' ls].
  - reflexivity.
  - change (strings.Join ((e :: e' :: ls) ++ [s]) sep)
      with (e ++ sep ++ strings.Join ((e' :: ls) ++ [s]) sep).
    rewrite IH. rewrite !bool_decide_false by done.
    change (strings.Join (e :: e' :: ls) sep)
      with (e ++ sep ++ strings.Join (e' :: ls) sep).
    by rewrite <- !app_assoc.
Qed.

Lemma Join_nil ls sep :
  Forall (fun e => e <> []) ls -> strings.Join ls sep = [] -> ls = [].
Proof.
  destruct 1 as [|e ls He Hls]; [done|].
  destruct ls; simpl; [done|]. destruct e; done.
Qed.

Lemma split_free sep cur s : sep ∉ s -> strings.split sep cur s = [cur ++ s].
Proof.
  revert cur. induction s as [|c s IH]; intros cur Hs; simpl.
  - by rewrite app_nil_r.
  - apply not_elem_of_cons in Hs as [Hc Hs].
    rewrite bool_decide_false by done. rewrite IH by done.
    by rewrite <- app_assoc.
Qed.

Lemma split_sep sep cur s rest :
  sep ∉ s ->
  strings.split sep cur (s ++ sep :: rest) = (cur ++ s) :: strings.split sep [] rest.
Proof.
  revert cur. induction s as [|c s IH]; intros cur Hs; simpl.
  - rewrite bool_decide_true by done. by rewrite app_nil_r.
  - apply not_elem_of_cons in Hs as [Hc Hs].
    rewrite bool_decide_false by done. rewrite IH by done.
    by rewrite <- app_assoc.
Qed.

Lemma Split_Join ls sep :
  Forall (fun e => sep ∉ e) ls -> ls <> [] ->
  strings.Split (strings.Join ls [sep]) sep = ls.
Proof.
  unfold strings.Split. induction 1 as [|e ls He Hls IH]; intros Hne; [done|].
  destruct ls as [|e' ls].
  - simpl. by rewrite split_free.
  - change (strings.Join (e :: e' :: ls) [sep])
      with (e ++ sep :: strings.Join (e' :: ls) [sep]).
    rewrite split_sep by done. by rewrite IH.
Qed.

(** The fuel of [strings.fields] and of [strings.replace] never runs out. *)
Lemma fields_fuel n m cur s :
  (length s < n)%nat -> (length s < m)%nat ->
  strings.fields n cur s = strings.fields m cur s.
Proof.
  revert m cur s. induction n as [|n IH]; intros m cur s Hn Hm; [lia|].
  destruct m as [|m]; [lia|]. simpl.
  destruct (strings.leadingSpace s) as [r|] eqn:Hl.
  - apply leadingSpace_Some in Hl as (w & Hw & ->).
    pose proof (spaces_nonempty _ Hw). rewrite length_app in Hn, Hm.
    f_equal. apply IH; lia.
  - destruct s as [|c s]; [done|]. simpl in Hn, Hm. apply IH; lia.
Qed.

Lemma lookup_shorter oldnew s new r :
  Forall (fun on : gostring * gostring => on.1 <> []) oldnew ->
  strings.lookup oldnew s = Some (new, r) -> (length r < length s)%nat.
Proof.
  induction 1 as [|[old new'] oldnew Hold Hrest IH]; simpl; [done|].
  destruct (strings.cut old s) as [r'|] eqn:Hc; [|done].
  intros [= -> ->]. apply cut_Some in Hc as ->. rewrite length_app.
  simpl in Hold. destruct old; [done|]. simpl. lia.
Qed.

Lemma replace_fuel oldnew n m s :
  Forall (fun on : gostring * gostring => on.1 <> []) oldnew ->
  (length s <= n)%nat -> (length s <= m)%nat ->
  strings.replace oldnew n s = strings.replace oldnew m s.
Proof.
  intros Hold. revert m s. induction n as [|n IH]; intros m s Hn Hm.
  - destruct s; [|simpl in Hn; lia]. by destruct m.
  - destruct s as [|c s]; [by destruct m|]. destruct m as [|m]; [simpl in Hm; lia|].
    simpl in Hn, Hm |- *.
    destruct (strings.lookup oldnew (c :: s)) as [[new r]|] eqn:Hl.
    + apply lookup_shorter in Hl; [|done]. simpl in Hl. f_equal. apply IH; lia.
    + f_equal. apply IH; lia.
Qed.

End StringFacts.

(** ** Facts about the matcher *)

Section MatcherFacts.

Lemma star_stop p n s k :
  notHead p s -> regexp.star (regexp.bt (regexp.Class p)) n s k = k s.
Proof.
  intros H. destruct n as [|n]; [done|]. simpl.
  destruct s as [|c s]; [done|]. simpl in H. by rewrite H.
Qed.

Lemma star_step p n c s k :
  p c = true ->
  regexp.star (regexp.bt (regexp.Class p)) (S n) (c :: s) k
  = match regexp.star (regexp.bt (regexp.Class p)) n s k with
    | Some r => Some r
    | None => k (c :: s)
    end.
Proof.
  intros H. simpl. rewrite H.
  assert ((length s <? S (length s))%nat = true) as -> by (apply Nat.ltb_lt; lia).
  done.
Qed.

(** A greedy run over a class stops at the end of the run when the
    continuation refuses every input that goes on with the class. *)
Lemma star_greedy p l n rest k :
  Forall (fun c => p c = true) l ->
  (forall c s, p c = true -> k (c :: s) = None) ->
  notHead p rest ->
  (length (l ++ rest) <= n)%nat ->
  regexp.star (regexp.bt (regexp.Class p)) n (l ++ rest) k = k rest.
Proof.
  intros Hl Hk Hrest. revert n. induction Hl as [|c l Hc Hl IH]; intros n Hn.
  - by apply star_stop.
  - destruct n as [|n]; [simpl in Hn; lia|].
    change ((c :: l) ++ rest) with (c :: (l ++ rest)).
    rewrite star_step by done. rewrite IH by (simpl in Hn; lia).
    destruct (k rest); [done|]. by apply Hk.
Qed.

(** A greedy run over a class takes a whole string of the class. *)
Lemma star_all p l n :
  Forall (fun c => p c = true) l ->
  (length l <= n)%nat ->
  regexp.star (regexp.bt (regexp.Class p)) n l Some = Some [].
Proof.
  intros Hl. revert n. induction Hl as [|c l Hc Hl IH]; intros n Hn.
  - by apply star_stop.
  - destruct n as [|n]; [simpl in Hn; lia|].
    rewrite star_step by done. by rewrite IH by (simpl in Hn; lia).
Qed.

Lemma star_sound step L : sound step L -> forall n s k x,
  regexp.star step n s k = Some x ->
  exists ms rest, s = concat ms ++ rest /\ Forall L ms /\ k rest = Some x.
Proof.
  intros Hstep. induction n as [|n IH]; intros s k x H; simpl in H.
  - exists [], s. by repeat split.
  - destruct (step s _) as [r|] eqn:Hs.
    + injection H as ->. apply Hstep in Hs as (m & rest & -> & Hm & Hk).
      destruct (_ <? _)%nat; [|done].
      apply IH in Hk as (ms & rest' & -> & Hms & Hk).
      exists (m :: ms), rest'. simpl. rewrite <- app_assoc. repeat split; [|done].
      by constructor.
    + exists [], s. by repeat split.
Qed.

Lemma times_sound step L : sound step L -> forall n s k x,
  regexp.times step n s k = Some x ->
  exists ms rest, length ms = n /\ s = concat ms ++ rest /\ Forall L ms /\ k rest = Some x.
Proof.
  intros Hstep. induction n as [|n IH]; intros s k x H; simpl in H.
  - exists [], s. by repeat split.
  - apply Hstep in H as (m & rest & -> & Hm & Hk).
    apply IH in Hk as (ms & rest' & Hlen & -> & Hms & Hk).
    exists (m :: ms), rest'. simpl. rewrite <- app_assoc, Hlen. repeat split; [|done].
    by constructor.
Qed.

(** What the matcher cuts off the input is in the language of the pattern. *)
Lemma bt_sound r : sound (regexp.bt r) (matches r).
Proof.
  induction r as [p|r1 IH1 r2 IH2|r1 IH|r1 IH|n r1 IH]; intros s k x H; simpl in H.
  - destruct s as [|c s]; [done|]. destruct (p c) eqn:Hp; [|done].
    exists [c], s. repeat split; [|done]. by exists c.
  - apply IH1 in H as (m1 & rest1 & -> & Hm1 & H).
    apply IH2 in H as (m2 & rest & -> & Hm2 & H).
    exists (m1 ++ m2), rest. rewrite <- app_assoc. repeat split; [|done].
    by exists m1, m2.
  - apply (star_sound _ _ IH) in H as (ms & rest & -> & Hms & H).
    exists (concat ms), rest. repeat split; [|done]. by exists ms.
  - apply IH in H as (m1 & rest1 & -> & Hm1 & H).
    apply (star_sound _ _ IH) in H as (ms & rest & -> & Hms & H).
    exists (m1 ++ concat ms), rest. rewrite <- app_assoc. repeat split; [|done].
    exists (m1 :: ms). repeat split; [done|]. by constructor.
  - apply (times_sound _ _ IH) in H as (ms1 & rest1 & Hlen & -> & Hms1 & H).
    apply (star_sound _ _ IH) in H as (ms2 & rest & -> & Hms2 & H).
    exists (concat ms1 ++ concat ms2), rest. rewrite <- app_assoc. repeat split; [|done].
    exists (ms1 ++ ms2). rewrite length_app, concat_app. repeat split; [lia|].
    by apply Forall_app.
Qed.

Lemma star_ext step : extensional step -> forall n, extensional (regexp.star step n).
Proof.
  intros Hstep. induction n as [|n IH]; intros s k1 k2 Hk; simpl; [done|].
  rewrite (Hstep s _ (fun s' => if (length s' <? length s)%nat
                                then regexp.star step n s' k2 else None)).
  - by rewrite Hk.
  - intros s'. destruct (_ <? _)%nat; [|done]. by apply IH.
Qed.

Lemma times_ext step : extensional step -> forall n, extensional (regexp.times step n).
Proof.
  intros Hstep. induction n as [|n IH]; intros s k1 k2 Hk; simpl; [done|].
  apply Hstep. intros s'. by apply IH.
Qed.

Lemma bt_ext r : extensional (regexp.bt r).
Proof.
  induction r as [p|r1 IH1 r2 IH2|r1 IH|r1 IH|n r1 IH]; intros s k1 k2 Hk; simpl.
  - destruct s as [|c s]; [done|]. by rewrite Hk.
  - apply IH1. intros s'. by apply IH2.
  - by apply star_ext.
  - apply IH. intros s'. by apply star_ext.
  - apply times_ext; [done|]. intros s'. by apply star_ext.
Qed.

(** The fuel of [regexp.star] never runs out: any amount that covers the
    input gives the same answer. *)
Lemma star_fuel step L :
  extensional step -> sound step L -> forall n m s k,
  (length s <= n)%nat -> (length s <= m)%nat ->
  regexp.star step n s k = regexp.star step m s k.
Proof.
  intros Hext Hsound.
  assert (forall k, regexp.star step 0 [] k = k []) as H0 by done.
  assert (forall m k, regexp.star step m [] k = k []) as Hnil.
  { intros [|m] k; [done|]. simpl.
    destruct (step [] _) as [x|] eqn:Hs; [|done].
    by apply Hsound in Hs as (? & ? & _ & _ & ?). }
  induction n as [|n IH]; intros m s k Hn Hm.
  - destruct s; [|simpl in Hn; lia]. by rewrite !Hnil.
  - destruct m as [|m].
    { destruct s; [|simpl in Hm; lia]. by rewrite !Hnil. }
    simpl.
    rewrite (Hext s _ (fun s' => if (length s' <? length s)%nat
                                 then regexp.star step m s' k else None)); [done|].
    intros s'. destruct (length s' <? length s)%nat eqn:Hlt; [|done].
    apply Nat.ltb_lt in Hlt. apply IH; lia.
Qed.

Lemma FindString_unfold re s :
  regexp.FindString re s
  = match regexp.bt re s Some with
    | Some rest => take (length s - length rest) s
    | None => match s with [] => [] | _ :: s' => regexp.FindString re s' end
    end.
Proof. by destruct s. Qed.

(** [FindString] returns nothing or a string of the language. *)
Lemma FindString_sound re s :
  regexp.FindString re s = [] \/ matches re (regexp.FindString re s).
Proof.
  induction s as [|c s IH]; rewrite FindString_unfold.
  - destruct (regexp.bt re [] Some) as [rest|] eqn:H; [|by left].
    apply bt_sound in H as (m & rest' & Hs & Hm & [= ->]).
    right. rewrite Hs, length_app, Nat.add_sub, take_app_length. done.
  - destruct (regexp.bt re (c :: s) Some) as [rest|] eqn:H; [|done].
    apply bt_sound in H as (m & rest' & Hs & Hm & [= ->]).
    right. rewrite Hs, length_app, Nat.add_sub, take_app_length. done.
Qed.

End MatcherFacts.

(** ** Facts about the host-name pattern *)

Section HostFacts.

Ltac by_byte c H :=
  destruct c as [[] [] [] [] [] [] [] []]; vm_compute in H; try discriminate H;
  vm_compute; try reflexivity.

Lemma label_not_dot c : labelChar c = true -> isChar "." c = false.
Proof. intros H. by_byte c H. Qed.

Lemma lower_label c : isLower c = true -> labelChar c = true.
Proof. unfold labelChar. by intros ->. Qed.

Lemma plain_ascii c : plainChar c = true -> (code c <? 128)%nat = true.
Proof. intros H. by_byte c H. Qed.

Lemma plain_not_upper c : plainChar c = true -> strings.isUpper c = false.
Proof. intros H. by_byte c H. Qed.

Lemma host_plain c : hostChar c = true -> plainChar c = true.
Proof. unfold plainChar. by intros ->. Qed.

Lemma host_not_space c s : hostChar c = true -> strings.leadingSpace (c :: s) = None.
Proof.
  intros H.
  destruct c as [[] [] [] [] [] [] [] []]; vm_compute in H; try discriminate H;
    reflexivity.
Qed.

Lemma bt_Cat r1 r2 s k :
  regexp.bt (regexp.Cat r1 r2) s k = regexp.bt r1 s (fun s' => regexp.bt r2 s' k).
Proof. reflexivity. Qed.

Lemma bt_Plus r s k :
  regexp.bt (regexp.Plus r) s k
  = regexp.bt r s (fun s' => regexp.star (regexp.bt r) (length s') s' k).
Proof. reflexivity. Qed.

Lemma bt_Class p s k :
  regexp.bt (regexp.Class p) s k
  = match s with c :: s' => if p c then k s' else None | [] => None end.
Proof. reflexivity. Qed.

Lemma star_unfold step n s k :
  regexp.star step (S n) s k
  = match step s (fun s' => if (length s' <? length s)%nat
                            then regexp.star step n s' k else None) with
    | Some r => Some r
    | None => k s
    end.
Proof. reflexivity. Qed.

Lemma dotted_cons l ls t : dotted (l :: ls) ++ t = l ++ "."%char :: (dotted ls ++ t).
Proof. unfold dotted. simpl. by rewrite <- !app_assoc. Qed.

(** A label is taken whole, and has to be followed by its dot. *)
Lemma label_dot l rest k :
  label l -> notHead labelChar rest ->
  regexp.bt groupRe (l ++ rest) k
  = match rest with
    | c :: r => if isChar "." c then k r else None
    | [] => None
    end.
Proof.
  intros [Hne Hl] Hrest. destruct l as [|c l]; [done|].
  apply Forall_cons in Hl as [Hc Hl].
  unfold groupRe. rewrite bt_Cat, bt_Plus.
  change ((c :: l) ++ rest) with (c :: (l ++ rest)).
  rewrite bt_Class, Hc. rewrite star_greedy; try done.
  intros c' s' Hc'. rewrite bt_Class. by rewrite label_not_dot.
Qed.

(** The last label is taken whole. *)
Lemma last_all t : tld t -> regexp.bt lastRe t Some = Some [].
Proof.
  intros [Hlen Ht]. destruct t as [|a [|b t]]; [simpl in Hlen; lia..|].
  apply Forall_cons in Ht as [Ha Ht]. apply Forall_cons in Ht as [Hb Ht].
  unfold lastRe. simpl. rewrite Ha, Hb. by apply star_all.
Qed.

Lemma tld_label t : tld t -> label t.
Proof.
  intros [Hlen Ht]. split; [destruct t; [simpl in Hlen; lia|done]|].
  eapply Forall_impl; [exact Ht|]. apply lower_label.
Qed.

(** The groups are taken as long as a label with its dot follows. *)
Lemma groups_all ls t n :
  Forall label ls -> tld t ->
  (length (dotted ls ++ t) <= n)%nat ->
  regexp.star (regexp.bt groupRe) n (dotted ls ++ t)
    (fun s' => regexp.bt lastRe s' Some) = Some [].
Proof.
  intros Hls Ht. revert n. induction Hls as [|l ls Hl Hls IH]; intros n Hn.
  - change (dotted [] ++ t) with t.
    destruct n as [|n]; [by apply last_all|].
    rewrite star_unfold. rewrite <- (app_nil_r t) at 1.
    rewrite label_dot; [|by apply tld_label|done]. by apply last_all.
  - rewrite dotted_cons in Hn |- *. rewrite length_app in Hn. simpl in Hn.
    destruct n as [|n]; [lia|].
    rewrite star_unfold. rewrite label_dot; [|done|done].
    change (isChar "." ".") with true. cbv iota.
    match goal with
    | |- context [(?a <? ?b)%nat] =>
        assert ((a <? b)%nat = true) as ->
          by (apply Nat.ltb_lt; rewrite !length_app; simpl; rewrite !length_app; lia)
    end.
    rewrite IH by lia. done.
Qed.

(** On a host name the pattern matches at once, and all of it. *)
Lemma hostRe_all m : hostname m -> regexp.bt hostRe m Some = Some [].
Proof.
  intros (ls & t & Hne & Hls & Ht & ->).
  destruct ls as [|l ls]; [done|]. apply Forall_cons in Hls as [Hl Hls].
  unfold hostRe. rewrite bt_Cat, bt_Plus. rewrite dotted_cons.
  rewrite label_dot; [|done|done].
  change (isChar "." ".") with true. cbv iota.
  by apply groups_all.
Qed.

Lemma FindString_hostname m : hostname m -> regexp.FindString hostRe m = m.
Proof.
  intros H. rewrite FindString_unfold, hostRe_all by done.
  simpl. by rewrite Nat.sub_0_r, firstn_all.
Qed.

Lemma class_run p cs :
  Forall (matches (regexp.Class p)) cs ->
  Forall (fun c => p c = true) (concat cs) /\ length (concat cs) = length cs.
Proof.
  induction 1 as [|m cs (c & -> & Hc) Hcs [IH1 IH2]]; [done|].
  simpl. split; [by constructor|by rewrite IH2].
Qed.

Lemma group_shape g : matches groupRe g -> exists l, label l /\ g = l ++ str ".".
Proof.
  intros (m1 & m2 & -> & (cs & Hne & -> & Hcs) & (c & -> & Hc)).
  apply class_run in Hcs as [Hl Hlen].
  apply bool_decide_eq_true in Hc as ->.
  exists (concat cs). split; [|done]. split; [|done].
  intros Hnil. rewrite Hnil in Hlen. by destruct cs.
Qed.

Lemma groups_shape gs :
  Forall (matches groupRe) gs -> exists ls, Forall label ls /\ concat gs = dotted ls.
Proof.
  induction 1 as [|g gs Hg Hgs (ls & Hls & IH)].
  - by exists [].
  - apply group_shape in Hg as (l & Hl & ->).
    exists (l :: ls). split; [by constructor|].
    unfold dotted in *. simpl. by rewrite IH.
Qed.

(** The language of the pattern is the bare host names. *)
Lemma matches_hostname m : matches hostRe m -> hostname m.
Proof.
  intros (g & t & -> & (gs & Hne & -> & Hgs) & (ts & Hlen & -> & Hts)).
  destruct (groups_shape gs Hgs) as (ls & Hls & Hd).
  apply class_run in Hts as [Ht Htl].
  exists ls, (concat ts). split.
  { intros ->. destruct gs as [|g gs]; [done|].
    apply Forall_cons in Hgs as [Hg _]. apply group_shape in Hg as (l & _ & ->).
    simpl in Hd. by destruct l. }
  split; [done|]. split; [|by rewrite Hd]. split; [lia|done].
Qed.

Lemma FindString_host s :
  regexp.FindString hostRe s = [] \/ hostname (regexp.FindString hostRe s).
Proof.
  destruct (FindString_sound hostRe s) as [H|H]; [by left|].
  right. by apply matches_hostname.
Qed.

Lemma dotted_chars ls :
  Forall label ls -> Forall (fun c => hostChar c = true) (dotted ls).
Proof.
  induction 1 as [|l ls [_ Hl] Hls IH]; [constructor|].
  unfold dotted in *. simpl. rewrite <- app_assoc.
  apply Forall_app. split.
  - eapply Forall_impl; [exact Hl|]. intros c Hc. unfold hostChar. by rewrite Hc.
  - by constructor.
Qed.

Lemma hostname_chars m : hostname m -> Forall (fun c => hostChar c = true) m.
Proof.
  intros (ls & t & _ & Hls & [_ Ht] & ->). apply Forall_app. split.
  - by apply dotted_chars.
  - eapply Forall_impl; [exact Ht|]. intros c Hc. unfold hostChar.
    by rewrite lower_label.
Qed.

Lemma hostname_nonempty m : hostname m -> m <> [].
Proof.
  intros (ls & t & _ & _ & [Hlen _] & ->) H.
  apply (f_equal length) in H. rewrite length_app in H. simpl in H. lia.
Qed.

(** Behind a [www.] in front, a host name with a dot left is a host name. *)
Lemma strip_www m d :
  hostname m -> strings.cut (str "www.") m = Some d -> "."%char ∈ d -> hostname d.
Proof.
  intros (ls & t & Hne & Hls & Ht & ->) Hcut Hdot.
  apply cut_Some in Hcut.
  destruct ls as [|l ls]; [done|]. apply Forall_cons in Hls as [[Hl Hlc] Hls].
  rewrite dotted_cons in Hcut.
  assert (d = dotted ls ++ t) as ->.
  { destruct l as [|c1 [|c2 [|c3 [|c4 l]]]]; simpl in Hcut; simplify_eq; try done.
    do 3 (apply Forall_cons in Hlc as [_ Hlc]). apply Forall_cons in Hlc as [Hc _].
    vm_compute in Hc. discriminate Hc. }
  destruct ls as [|l' ls].
  - exfalso. change (dotted [] ++ t) with t in Hdot.
    destruct Ht as [_ Ht]. eapply Forall_forall in Ht; [|exact Hdot]. done.
  - by exists (l' :: ls), t.
Qed.

End HostFacts.

(** ** Facts about the normalizer *)

Section NormalizerFacts.

Lemma collect_cons tok toks seen out :
  collect (tok :: toks) seen out
  = if bool_decide (regexp.FindString hostRe tok = []) then collect toks seen out
    else if bool_decide (strings.TrimPrefix (regexp.FindString hostRe tok) (str "www.") ∈ seen)
         then collect toks seen out
         else collect toks
                ({[ strings.TrimPrefix (regexp.FindString hostRe tok) (str "www.") ]} ∪ seen)
                (out ++ [strings.TrimPrefix (regexp.FindString hostRe tok) (str "www.")]).
Proof. reflexivity. Qed.

(** The result of the loop has no element twice, and each of its
    elements comes from a match of the pattern. *)
Lemma collect_spec (toks : list gostring) (seen : gset gostring) (out : list gostring) :
  (forall x, x ∈ seen <-> x ∈ out) -> NoDup out -> Forall origin out ->
  NoDup (collect toks seen out) /\ Forall origin (collect toks seen out).
Proof.
  revert seen out. induction toks as [|tok toks IH]; intros seen out Hseen Hnd Hor; [done|].
  rewrite collect_cons. case_bool_decide as Hm; [by apply IH|].
  case_bool_decide as Hin; [by apply IH|].
  apply IH.
  - intros x. rewrite elem_of_union, elem_of_singleton, elem_of_app, list_elem_of_singleton.
    rewrite Hseen. tauto.
  - apply NoDup_app. split; [done|]. split; [|apply NoDup_singleton].
    intros x Hx ->%list_elem_of_singleton. apply Hin. by apply Hseen.
  - apply Forall_app. split; [done|]. constructor; [|done].
    destruct (FindString_host tok) as [?|Hh]; [done|]. by eexists.
Qed.

(** Host names that are all different and do not start with [www.] go
    through the loop as they are. *)
Lemma collect_fresh (ds : list gostring) (seen : gset gostring) (out : list gostring) :
  (forall x, x ∈ seen <-> x ∈ out) -> NoDup (out ++ ds) ->
  Forall (fun d => hostname d /\ strings.cut (str "www.") d = None) ds ->
  collect ds seen out = out ++ ds.
Proof.
  revert seen out. induction ds as [|d ds IH]; intros seen out Hseen Hnd Hds.
  - by rewrite app_nil_r.
  - apply Forall_cons in Hds as [[Hh Hcut] Hds].
    rewrite collect_cons, FindString_hostname by done.
    rewrite bool_decide_false by (by apply hostname_nonempty).
    unfold strings.TrimPrefix. rewrite Hcut.
    apply NoDup_app in Hnd as (Hout & Hdis & Hnd').
    rewrite bool_decide_false.
    2:{ rewrite Hseen. intros Hin. apply (Hdis _ Hin). by left. }
    rewrite (IH _ (out ++ [d])); [by rewrite <- app_assoc| |by rewrite <- app_assoc; apply NoDup_app|done].
    intros x. rewrite elem_of_union, elem_of_singleton, elem_of_app, list_elem_of_singleton.
    rewrite Hseen. tauto.
Qed.

Lemma plain_flags s :
  Forall (fun c => plainChar c = true) s ->
  strings.isASCII s = true /\ existsb strings.isUpper s = false.
Proof.
  induction 1 as [|c s Hc Hs [IH1 IH2]]; [done|].
  unfold strings.isASCII in *. simpl. by rewrite plain_ascii, plain_not_upper, IH1, IH2.
Qed.

Lemma Forall_forallb (f : ascii -> bool) l :
  Forall (fun c => f c = true) l -> forallb f l = true.
Proof. induction 1 as [|c l Hc Hl IH]; [done|]. simpl. by rewrite Hc, IH. Qed.

Lemma lookup_none (f : ascii -> bool) oldnew s :
  Forall (fun c => f c = true) s ->
  Forall (fun on : gostring * gostring => forallb f on.1 = false) oldnew ->
  strings.lookup oldnew s = None.
Proof.
  intros Hs. induction 1 as [|[old new] oldnew Hold Hrest IH]; [done|].
  simpl. destruct (strings.cut old s) as [r|] eqn:Hc; [|done].
  apply cut_Some in Hc as ->. apply Forall_app in Hs as [Hs _].
  apply Forall_forallb in Hs. simpl in Hold. congruence.
Qed.

(** Every string the replacer looks for holds a byte that no host name,
    space or newline has. *)
Lemma lookup_plain s :
  Forall (fun c => plainChar c = true) s -> strings.lookup repls s = None.
Proof.
  intros Hs. apply (lookup_none plainChar); [done|].
  unfold repls. repeat constructor.
Qed.

Lemma replace_plain n s :
  Forall (fun c => plainChar c = true) s -> strings.replace repls n s = s.
Proof.
  revert s. induction n as [|n IH]; intros s Hs; [done|].
  destruct s as [|c s]; [done|].
  change (strings.replace repls (S n) (c :: s))
    with (match strings.lookup repls (c :: s) with
          | Some (new, r) => new ++ strings.replace repls n r
          | None => c :: strings.replace repls n s
          end).
  rewrite lookup_plain by done. apply Forall_cons in Hs as [_ Hs]. by rewrite IH.
Qed.

Lemma fields_unfold n cur s :
  strings.fields (S n) cur s
  = match strings.leadingSpace s with
    | Some r => strings.flush cur ++ strings.fields n [] r
    | None => match s with
              | [] => strings.flush cur
              | c :: s' => strings.fields n (cur ++ [c]) s'
              end
    end.
Proof. reflexivity. Qed.

Lemma fields_run d cur rest n :
  Forall (fun c => hostChar c = true) d ->
  strings.fields (length d + n) cur (d ++ rest) = strings.fields n (cur ++ d) rest.
Proof.
  intros Hd. revert cur. induction Hd as [|c d Hc Hd IH]; intros cur.
  - by rewrite app_nil_r.
  - change (length (c :: d) + n)%nat with (S (length d + n)).
    change ((c :: d) ++ rest) with (c :: (d ++ rest)).
    rewrite fields_unfold, host_not_space by done.
    rewrite IH. by rewrite <- app_assoc.
Qed.

Lemma fields_end n cur : strings.fields (S n) cur [] = strings.flush cur.
Proof. reflexivity. Qed.

Lemma fields_sep sp n cur s :
  sp = " "%char \/ sp = nl ->
  strings.fields (S n) cur (sp :: s) = strings.flush cur ++ strings.fields n [] s.
Proof. intros [->| ->]; reflexivity. Qed.

(** [strings.Fields] undoes [strings.Join] on host names joined by a
    space or by a newline. *)
Lemma fields_Join ds sp n :
  sp = " "%char \/ sp = nl ->
  Forall (fun d => d <> [] /\ Forall (fun c => hostChar c = true) d) ds ->
  (length (strings.Join ds [sp]) < n)%nat ->
  strings.fields n [] (strings.Join ds [sp]) = ds.
Proof.
  intros Hsp Hds. revert n. induction Hds as [|d ds [Hne Hd] Hds IH]; intros n Hn.
  - destruct n as [|n]; [simpl in Hn; lia|]. done.
  - destruct ds as [|d' ds].
    + change (strings.Join [d] [sp]) with d in Hn |- *.
      replace n with (length d + S (n - length d - 1))%nat by lia.
      pose proof (fields_run d [] [] (S (n - length d - 1)) Hd) as Hr.
      rewrite app_nil_r in Hr. rewrite Hr, fields_end. simpl. by destruct d.
    + change (strings.Join (d :: d' :: ds) [sp])
        with (d ++ sp :: strings.Join (d' :: ds) [sp]) in Hn |- *.
      rewrite length_app in Hn. simpl in Hn.
      replace n with (length d + S (n - length d - 1))%nat by lia.
      rewrite fields_run by done. rewrite fields_sep by done.
      rewrite IH by (simpl; lia). simpl. by destruct d.
Qed.

Lemma Join_plain ds sp :
  sp = " "%char \/ sp = nl ->
  Forall (fun d => Forall (fun c => hostChar c = true) d) ds ->
  Forall (fun c => plainChar c = true) (strings.Join ds [sp]).
Proof.
  intros Hsp. induction 1 as [|d ds Hd Hds IH]; [constructor|].
  assert (Forall (fun c => plainChar c = true) d) as Hd'.
  { eapply Forall_impl; [exact Hd|]. apply host_plain. }
  destruct ds as [|d' ds]; [done|].
  change (strings.Join (d :: d' :: ds) [sp])
    with (d ++ sp :: strings.Join (d' :: ds) [sp]).
  apply Forall_app. split; [done|]. constructor; [|done].
  by destruct Hsp as [->| ->].
Qed.

Lemma collect_length (ds : list gostring) (seen : gset gostring) (out : list gostring) :
  (length (collect ds seen out) <= length out + length ds)%nat.
Proof.
  revert seen out. induction ds as [|d ds IH]; intros seen out; [simpl; lia|].
  rewrite collect_cons. repeat case_bool_decide.
  - specialize (IH seen out). simpl. lia.
  - specialize (IH seen out). simpl. lia.
  - etrans; [apply IH|]. rewrite length_app. simpl. lia.
Qed.

Lemma collect_extends (ds : list gostring) (seen : gset gostring) (out : list gostring) :
  exists more, collect ds seen out = out ++ more.
Proof.
  revert seen out. induction ds as [|d ds IH]; intros seen out.
  - exists []. by rewrite app_nil_r.
  - rewrite collect_cons. repeat case_bool_decide; [apply IH..|].
    destruct (IH ({[strings.TrimPrefix (regexp.FindString hostRe d) (str "www.")]} ∪ seen)
                (out ++ [strings.TrimPrefix (regexp.FindString hostRe d) (str "www.")]))
      as (more & ->).
    eexists. by rewrite <- app_assoc.
Qed.

(** When the loop returns its tokens as they are, each token is a match
    of the pattern that [TrimPrefix] leaves alone. *)
Lemma collect_same (ds : list gostring) (seen : gset gostring) (out : list gostring) :
  collect ds seen out = out ++ ds ->
  Forall (fun d => regexp.FindString hostRe d <> []
                   /\ strings.TrimPrefix (regexp.FindString hostRe d) (str "www.") = d) ds.
Proof.
  revert seen out. induction ds as [|d ds IH]; intros seen out H; [constructor|].
  rewrite collect_cons in H. case_bool_decide as Hm.
  { pose proof (collect_length ds seen out) as Hl. rewrite H, length_app in Hl.
    simpl in Hl. lia. }
  case_bool_decide as Hin.
  { pose proof (collect_length ds seen out) as Hl. rewrite H, length_app in Hl.
    simpl in Hl. lia. }
  destruct (collect_extends ds
              ({[strings.TrimPrefix (regexp.FindString hostRe d) (str "www.")]} ∪ seen)
              (out ++ [strings.TrimPrefix (regexp.FindString hostRe d) (str "www.")]))
    as (more & Hmore).
  pose proof H as H'. rewrite Hmore, <- app_assoc in H'.
  apply app_inv_head in H'. injection H' as Hd ->.
  constructor; [done|]. apply (IH _ _ Hmore).
Qed.

Lemma FindString_length re s : (length (regexp.FindString re s) <= length s)%nat.
Proof.
  induction s as [|c s IH]; rewrite FindString_unfold.
  - destruct (regexp.bt re [] Some); [rewrite length_take|]; simpl; lia.
  - destruct (regexp.bt re (c :: s) Some); [rewrite length_take|]; simpl; lia.
Qed.

Lemma hostname_dot m : hostname m -> "."%char ∈ m.
Proof.
  intros (ls & t & Hne & _ & _ & ->). destruct ls as [|l ls]; [done|].
  rewrite dotted_cons. apply elem_of_app. right. by left.
Qed.

Lemma same_settled d :
  regexp.FindString hostRe d <> [] ->
  strings.TrimPrefix (regexp.FindString hostRe d) (str "www.") = d ->
  settled d.
Proof.
  intros Hne Hd. destruct (FindString_host d) as [?|Hh]; [done|].
  pose proof (FindString_length hostRe d) as Hlen.
  unfold strings.TrimPrefix in Hd.
  destruct (strings.cut (str "www.") (regexp.FindString hostRe d)) as [r|] eqn:Hcut.
  - subst r. apply cut_Some in Hcut. rewrite Hcut in Hlen. simpl in Hlen. lia.
  - rewrite Hd in Hh, Hcut. split; [by apply hostname_dot|].
    unfold strings.HasPrefix. by rewrite Hcut.
Qed.

(** What the loop returns is not empty and is made of host-name bytes. *)
Lemma origin_chars d : origin d -> d <> [] /\ Forall (fun c => hostChar c = true) d.
Proof.
  intros (m & Hm & ->). unfold strings.TrimPrefix.
  destruct (strings.cut (str "www.") m) as [r|] eqn:Hcut.
  - apply cut_Some in Hcut. pose proof (hostname_chars m Hm) as Hch.
    rewrite Hcut in Hch. apply Forall_app in Hch as [_ Hch]. split; [|done].
    intros ->. destruct Hm as (ls & t & _ & _ & [Hlen Ht] & Heq).
    rewrite Hcut in Heq.
    destruct t as [|a t] using rev_ind; [simpl in Hlen; lia|].
    rewrite app_assoc in Heq.
    change (str "www." ++ []) with (str "www" ++ ["."%char]) in Heq.
    apply app_inj_tail in Heq as [_ <-].
    apply Forall_app in Ht as [_ Ht]. apply Forall_cons in Ht as [Ha _]. done.
  - split; [by apply hostname_nonempty|by apply hostname_chars].
Qed.

Variable unicodeLower : gostring -> gostring.

Lemma ToLower_plain s :
  Forall (fun c => plainChar c = true) s -> strings.ToLower unicodeLower s = s.
Proof.
  intros [H1 H2]%plain_flags. unfold strings.ToLower. by rewrite H1, H2.
Qed.

Lemma normalize_spec s :
  NoDup (normalizeDomains unicodeLower s)
  /\ Forall origin (normalizeDomains unicodeLower s).
Proof. unfold normalizeDomains. apply collect_spec; [set_solver|constructor|constructor]. Qed.

Lemma settled_hostname d :
  origin d -> settled d -> hostname d /\ strings.cut (str "www.") d = None.
Proof.
  intros (m & Hm & Hd) [Hdot Hpre]. split.
  - unfold strings.TrimPrefix in Hd.
    destruct (strings.cut (str "www.") m) as [r|] eqn:Hcut; subst d; [|done].
    by apply (strip_www m).
  - unfold strings.HasPrefix in Hpre. by destruct (strings.cut _ d).
Qed.

(** On host-name bytes joined by a space or a newline, the normalizer
    is its loop over the elements joined. *)
Lemma normalize_Join (ds : list gostring) sp :
  sp = " "%char \/ sp = nl ->
  Forall (fun d => d <> [] /\ Forall (fun c => hostChar c = true) d) ds ->
  normalizeDomains unicodeLower (strings.Join ds [sp]) = collect ds ∅ [].
Proof.
  intros Hsp Hch.
  assert (Forall (fun c => plainChar c = true) (strings.Join ds [sp])) as Hpl.
  { apply Join_plain; [done|]. eapply Forall_impl; [exact Hch|]. by intros d [_ ?]. }
  unfold normalizeDomains. rewrite ToLower_plain by done.
  unfold strings.Replace. rewrite replace_plain by done.
  unfold strings.Fields. by rewrite fields_Join by (done || lia).
Qed.

(** C4 (amended). Joining what the normalizer returns, with spaces or
    with newlines, and normalizing again gives the same sequence if and
    only if every element returned still has a dot and does not start
    with [www.]. *)
Theorem normalize_again s sep :
  sep = str " " \/ sep = [nl] ->
  normalizeDomains unicodeLower (strings.Join (normalizeDomains unicodeLower s) sep)
  = normalizeDomains unicodeLower s
  <-> Forall settled (normalizeDomains unicodeLower s).
Proof.
  intros Hsep. destruct (normalize_spec s) as [Hnd Hor].
  assert (exists sp, sep = [sp] /\ (sp = " "%char \/ sp = nl)) as (sp & -> & Hsp).
  { destruct Hsep as [->| ->]; eexists; split; try reflexivity; auto. }
  rewrite normalize_Join; [|done|].
  2:{ eapply Forall_impl; [exact Hor|]. apply origin_chars. }
  split.
  - intros Heq. apply (collect_same _ ∅ []) in Heq.
    eapply Forall_impl; [exact Heq|]. intros d [? ?]. by apply same_settled.
  - intros Hset. rewrite collect_fresh; [done|set_solver|done|].
    apply Forall_forall. intros d Hd. apply settled_hostname.
    + eapply Forall_forall in Hor; [|exact Hd]. done.
    + eapply Forall_forall in Hset; [|exact Hd]. done.
Qed.

(** C8. The normalizer on [B.com, a.com www.a.com]. *)
Theorem normalize_dedup_order :
  normalizeDomains unicodeLower (str "B.com, a.com www.a.com")
  = [str "b.com"; str "a.com"].
Proof. vm_compute. reflexivity. Qed.

End NormalizerFacts.

(** C4: [www.com] is normalized to [com], which the normalizer then drops. *)
Lemma normalize_www_com :
  normalizeDomains noTables (str "www.com") = [str "com"]
  /\ normalizeDomains noTables (strings.Join [str "com"] [nl]) = []
  /\ normalizeDomains noTables
       (strings.Join (normalizeDomains noTables (str "www.com")) [nl])
     <> normalizeDomains noTables (str "www.com").
Proof. vm_compute. done. Qed.

(** C4 (amended), on [B.com, a.com www.a.com]: both elements returned,
    [b.com] and [a.com], have their dot and no [www.] in front. *)
Lemma normalize_again_witness :
  normalizeDomains noTables
    (strings.Join (normalizeDomains noTables (str "B.com, a.com www.a.com")) [nl])
  = normalizeDomains noTables (str "B.com, a.com www.a.com").
Proof.
  apply normalize_again; [by right|].
  replace (normalizeDomains noTables (str "B.com, a.com www.a.com"))
    with [str "b.com"; str "a.com"] by (vm_compute; reflexivity).
  repeat (constructor; [split; [apply (bool_decide_unpack _); vm_compute; exact I|reflexivity]|]).
  constructor.
Defined.

(** ** The session state machine *)

Section SessionFacts.
Context `{B : Bubbles}.
Variable unicodeLower : gostring -> gostring.

Lemma appendLogLine_stage (m : model) s : stage (appendLogLine m s) = stage m.
Proof. unfold appendLogLine. case_bool_decide; reflexivity. Qed.

Lemma appendLogLine_done (m : model) s : done (appendLogLine m s) = done m.
Proof. unfold appendLogLine. case_bool_decide; reflexivity. Qed.

Lemma appendLogLine_lines (m : model) s : lines (appendLogLine m s) = lines m.
Proof. unfold appendLogLine. case_bool_decide; reflexivity. Qed.

Lemma drain_stage n (m : model) : stage (drain n m) = stage m.
Proof.
  revert m. induction n as [|n IH]; intros m; simpl; [reflexivity|].
  destruct (lines m); [reflexivity|].
  rewrite IH, appendLogLine_stage. reflexivity.
Qed.

Lemma drain_done n (m : model) : done (drain n m) = done m.
Proof.
  revert m. induction n as [|n IH]; intros m; simpl; [reflexivity|].
  destruct (lines m); [reflexivity|].
  rewrite IH, appendLogLine_done. reflexivity.
Qed.

Lemma appendLogLine_nil (m : model) : appendLogLine m [] = m.
Proof. reflexivity. Qed.

Lemma appendLogLine_logBuf (m : model) s :
  s <> [] -> logBuf (appendLogLine m s) = logBuf m ++ separator (logBuf m) ++ s.
Proof.
  intros Hs. unfold appendLogLine, separator. rewrite bool_decide_false by done.
  simpl. destruct (logBuf m); simpl; [done|]. by rewrite <- app_assoc.
Qed.

Lemma appendLogLine_styles (m : model) s :
  okStyle (appendLogLine m s) = okStyle m /\ errStyle (appendLogLine m s) = errStyle m.
Proof. unfold appendLogLine. case_bool_decide; done. Qed.

Lemma drain_styles n (m : model) :
  okStyle (drain n m) = okStyle m /\ errStyle (drain n m) = errStyle m.
Proof.
  revert m. induction n as [|n IH]; intros m; simpl; [done|].
  destruct (lines m) as [|ln rest]; [done|].
  destruct (IH (appendLogLine (set_lines rest m) ln)) as [-> ->].
  by destruct (appendLogLine_styles (set_lines rest m) ln) as [-> ->].
Qed.

Lemma separator_Join ls :
  Forall (fun e : gostring => e <> []) ls ->
  separator (strings.Join ls [nl]) = if bool_decide (ls = []) then [] else [nl].
Proof.
  intros Hls. unfold separator. case_bool_decide as Hj.
  - apply Join_nil in Hj; [|done]. by rewrite bool_decide_true.
  - rewrite bool_decide_false; [done|]. by intros ->.
Qed.

Lemma drain_log n (m : model) ls :
  Forall (fun e : gostring => e <> []) ls ->
  logBuf m = strings.Join ls [nl] ->
  logBuf (drain n m)
  = strings.Join (ls ++ filter (fun ln => ln <> []) (take n (lines m))) [nl]
  /\ lines (drain n m) = drop n (lines m).
Proof.
  revert m ls. induction n as [|n IH]; intros m ls Hls Hlog; simpl.
  - by rewrite app_nil_r.
  - destruct (lines m) as [|ln rest] eqn:Hq; simpl.
    + by rewrite Hq, app_nil_r.
    + destruct (decide (ln = [])) as [->|Hln].
      * rewrite appendLogLine_nil.
        destruct (IH (set_lines rest m) ls Hls Hlog) as [-> ->].
        by rewrite filter_cons_False by (intros H; by apply H).
      * rewrite filter_cons_True by done.
        destruct (IH (appendLogLine (set_lines rest m) ln) (ls ++ [ln])) as [-> ->].
        -- apply Forall_app. split; [done|]. by constructor.
        -- rewrite appendLogLine_logBuf by done. simpl. rewrite Hlog.
           by rewrite Join_snoc, separator_Join.
        -- rewrite appendLogLine_lines. simpl. by rewrite <- app_assoc.
Qed.

Arguments keyIs : simpl never.
Arguments appendLogLine : simpl never.
Arguments drain : simpl never.

(** C6. One [Update] step yields one of the six stages; the stage stays
    or moves along a transition of the table; quitting (q, ctrl+c) and
    every input the stage does not match leave the stage as it is, and
    quitting returns [tea.Quit]. *)
Theorem Update_transitions fs (m : model) (msg : msg_t) :
  let r := Update unicodeLower fs m msg in
  stage r.1.1 ∈ [stepEmail; stepAPI; stepDomains; stepConfirm; stepRunning; stepDone]
  /\ (stage r.1.1 = stage m \/ transition (stage m) (stage r.1.1))
  /\ (matched (stage m) msg = false -> stage r.1.1 = stage m)
  /\ (isQuit msg = true -> stage r.1.1 = stage m /\ r.1.2 = Some Quit).
Proof.
  cbv zeta. split.
  { destruct (stage _); set_solver. }
  unfold Update, matched, isQuit.
  destruct (stage m) eqn:Hst, msg as [k| |err|ln|x]; simpl;
    repeat match goal with
      | |- context [keyIs ?k ?l] => destruct (keyIs k l) eqn:?
      | |- context [bool_decide ?P] => destruct (bool_decide P) eqn:?
      | |- context [textinput_Update ?w ?x] => destruct (textinput_Update w x)
      | |- context [textarea_Update ?w ?x] => destruct (textarea_Update w x)
      | |- context [spinner_Update ?w ?x] => destruct (spinner_Update w x)
      | |- context [assertExecutable ?a ?b] => destruct (assertExecutable a b) as [? [?|]]
      | |- context [cancel ?x] => destruct (cancel x)
      | |- context [done ?x] => destruct (done x) as [[?|]|] eqn:?
      | |- context [errors_Is_Canceled ?x] => destruct (errors_Is_Canceled x)
      end; simpl; rewrite ?appendLogLine_stage; simpl; rewrite ?drain_stage, ?Hst;
    repeat split; eauto using transition; try discriminate; try congruence.
Qed.





(** C7. In the Email and API stages, Enter on a value that is empty or
    white space only returns the model unchanged and no command, so the
    stage stays what it was; Enter on any other value moves Email to API
    and API to Domains (giving the focus to the next widget), with no
    command and the other fields as they were. *)
Theorem enter_needs_text fs (m : model) (k : Key) :
  Key_String k = str "enter" ->
  (stage m = stepEmail ->
     (AllSpace (textinput_Value (email m)) ->
        Update unicodeLower fs m (KeyMsg k) = (m, None, fs)
        /\ stage (Update unicodeLower fs m (KeyMsg k)).1.1 = stepEmail)
     /\ (~ AllSpace (textinput_Value (email m)) ->
        Update unicodeLower fs m (KeyMsg k)
        = (set_apiKey (textinput_Focus (apiKey m)) (set_stage stepAPI m), None, fs)
        /\ stage (Update unicodeLower fs m (KeyMsg k)).1.1 = stepAPI
        /\ (Update unicodeLower fs m (KeyMsg k)).1.2 = None
        /\ email (Update unicodeLower fs m (KeyMsg k)).1.1 = email m
        /\ domArea (Update unicodeLower fs m (KeyMsg k)).1.1 = domArea m))
  /\ (stage m = stepAPI ->
     (AllSpace (textinput_Value (apiKey m)) ->
        Update unicodeLower fs m (KeyMsg k) = (m, None, fs)
        /\ stage (Update unicodeLower fs m (KeyMsg k)).1.1 = stepAPI)
     /\ (~ AllSpace (textinput_Value (apiKey m)) ->
        Update unicodeLower fs m (KeyMsg k)
        = (set_domArea (textarea_Focus (domArea m)) (set_stage stepDomains m), None, fs)
        /\ stage (Update unicodeLower fs m (KeyMsg k)).1.1 = stepDomains
        /\ (Update unicodeLower fs m (KeyMsg k)).1.2 = None
        /\ email (Update unicodeLower fs m (KeyMsg k)).1.1 = email m
        /\ apiKey (Update unicodeLower fs m (KeyMsg k)).1.1 = apiKey m)).
Proof.
  intros Hk.
  assert (keyIs (Key_String k) ["q"; "ctrl+c"]%string = false) as Hq by (by rewrite Hk).
  assert (keyIs (Key_String k) ["esc"]%string = false) as Hesc by (by rewrite Hk).
  assert (keyIs (Key_String k) ["enter"]%string = true) as Hent by (by rewrite Hk).
  split; intros Hst; unfold Update; rewrite Hst; simpl; rewrite Hq, ?Hesc, Hent;
    (split; intros Hv;
     [rewrite bool_decide_true by (by apply TrimSpace_nil_iff)
     |rewrite bool_decide_false by (by rewrite TrimSpace_nil_iff)]); simpl; done.
Qed.

Lemma contains_nonempty t s : contains t s -> t <> [] -> s <> [].
Proof. intros (a & b & ->) Ht. destruct a, t; done. Qed.

Lemma contains_render_suffix (st : lipgloss_Style) a t :
  (forall st s, contains s (lipgloss_Render st s)) ->
  contains t (lipgloss_Render st (a ++ t)).
Proof.
  intros Hr. destruct (Hr st (a ++ t)) as (x & y & ->).
  exists (x ++ a), y. by rewrite <- !app_assoc.
Qed.

(** C2. A tick in the Running stage first drains the line queue. If the
    completion slot is filled, it appends one line to the log (the
    rendered [Done.] when the slot holds no error or a cancellation, the
    rendered [Process error: ] with the error text otherwise), empties
    the slot and moves to Done with no command; if it is empty, the tick
    is re-armed and the stage stays Running. The styles are assumed to
    keep the text they render. *)
Theorem tick_completion fs (m : model) :
  stage m = stepRunning ->
  (forall st s, contains s (lipgloss_Render st s)) ->
  let m1 := drain 200 m in
  (forall err, done m = Some err ->
     let r := Update unicodeLower fs m tickMsg in
     let line := finalStatus m err in
     r = (set_stage stepDone (appendLogLine (set_done None m1) line), None, fs)
     /\ stage r.1.1 = stepDone
     /\ line <> []
     /\ logBuf r.1.1 = logBuf m1 ++ separator (logBuf m1) ++ line
     /\ match err with
        | Some e =>
            if errors_Is_Canceled e then contains (str "Done.") line
            else contains (str "Process error: ") line /\ contains (Error e) line
        | None => contains (str "Done.") line
        end)
  /\ (done m = None ->
      Update unicodeLower fs m tickMsg = (m1, Some nextTick, fs)
      /\ stage m1 = stepRunning).
Proof.
  intros Hst Hr m1.
  assert (done m1 = done m) as Hd1 by apply drain_done.
  destruct (drain_styles 200 m) as [Hok Herr]. fold m1 in Hok, Herr.
  assert (forall err, finalStatus m err <> []) as Hline.
  { intros err. unfold finalStatus.
    destruct err as [e|]; [destruct (errors_Is_Canceled e)|];
      eapply contains_nonempty; try apply Hr; done. }
  split.
  - intros err Hd r line.
    assert (r = (set_stage stepDone (appendLogLine (set_done None m1) line), None, fs)) as Hreq.
    { unfold r, Update. rewrite Hst. cbv beta iota zeta. fold m1. rewrite Hd1, Hd.
      unfold line, finalStatus.
      change (errStyle (set_done None m1)) with (errStyle m1).
      change (okStyle (set_done None m1)) with (okStyle m1).
      rewrite Hok, Herr.
      destruct err as [e|]; [destruct (errors_Is_Canceled e)|]; reflexivity. }
    rewrite Hreq. split; [done|]. split; [done|]. split; [apply Hline|]. split.
    + cbn [fst snd]. change (logBuf (set_stage stepDone ?x)) with (logBuf x).
      rewrite appendLogLine_logBuf by apply Hline. done.
    + unfold line, finalStatus.
      destruct err as [e|]; [destruct (errors_Is_Canceled e)|]; try apply Hr.
      split; [|by apply contains_render_suffix].
      destruct (Hr (errStyle m) (str "Process error: " ++ Error e)) as (x & y & ->).
      exists x, (Error e ++ y). by rewrite <- !app_assoc.
  - intros Hd. unfold Update. rewrite Hst. cbv beta iota zeta. fold m1.
    rewrite Hd1, Hd. split; [done|].
    unfold m1. by rewrite drain_stage.
Qed.

(** C10. [appendLogLine] returns the model untouched for the empty
    string, and otherwise writes the line behind the separator (a newline
    unless the log is empty). Hence a drain of [n] rounds leaves, of the
    queued lines it reads, the non-empty ones in the log: for a log that
    shows the lines [shown] and scanner lines, which hold no newline, the
    log then shows [shown] followed by the non-empty lines read, and none
    of its lines is empty. *)
Theorem log_skips_empty_lines n (m : model) (shown : list gostring) :
  logBuf m = strings.Join shown [nl] ->
  Forall (fun ln => ln <> [] /\ nl ∉ ln) shown ->
  Forall (fun ln => nl ∉ ln) (lines m) ->
  let kept := filter (fun ln => ln <> []) (take n (lines m)) in
  (forall m' : model, appendLogLine m' [] = m')
  /\ (forall (m' : model) s, s <> [] ->
        logBuf (appendLogLine m' s) = logBuf m' ++ separator (logBuf m') ++ s)
  /\ logBuf (drain n m) = strings.Join (shown ++ kept) [nl]
  /\ lines (drain n m) = drop n (lines m)
  /\ ([] ∉ shown ++ kept)
  /\ (shown ++ kept <> [] -> strings.Split (logBuf (drain n m)) nl = shown ++ kept).
Proof.
  intros Hlog Hshown Hq kept.
  assert (Forall (fun ln : gostring => ln <> [] /\ nl ∉ ln) (shown ++ kept)) as Hall.
  { apply Forall_app. split; [done|]. unfold kept.
    apply Forall_forall. intros ln Hin. apply list_elem_of_filter in Hin as [Hne Hin].
    split; [done|]. apply elem_of_take in Hin as (i & Hi & _).
    eapply Forall_lookup_1 in Hq; [|exact Hi]. done. }
  destruct (drain_log n m shown) as [Hbuf Hlines]; [|done|].
  { eapply Forall_impl; [exact Hshown|]. by intros ? []. }
  split; [apply appendLogLine_nil|].
  split; [apply appendLogLine_logBuf|].
  split; [done|]. split; [done|]. split.
  - intros Hin. eapply Forall_forall in Hall; [|exact Hin]. by destruct Hall.
  - intros Hne. fold kept in Hbuf. rewrite Hbuf. apply Split_Join; [|done].
    eapply Forall_impl; [exact Hall|]. by intros ? [].
Qed.

(** C5 (amended). [assertExecutable] returns an error exactly when the
    path is empty, [os.Stat] fails on it, or it is a directory. A file
    without any executable bit gets a [chmod 0755] whose result is not
    looked at, and passes. On [y] in the Confirm stage an error ends in
    Done with no command and the rendered error text in the viewport;
    otherwise the stage is Running and the command starts the process and
    the tick. *)
Theorem validation fs (m : model) (k : Key) :
  stage m = stepConfirm ->
  Key_String k = str "y" ->
  let p := scriptPath m in
  let v := assertExecutable fs p in
  let r := Update unicodeLower fs m (KeyMsg k) in
  ((v.2 <> None) <->
     (p = [] \/ (exists e, os.Stat fs p = inr e)
      \/ (exists fi, os.Stat fs p = inl fi /\ os.IsDir fi = true)))
  /\ (forall fi, p <> [] -> os.Stat fs p = inl fi -> os.IsDir fi = false ->
        v.2 = None
        /\ v.1 = if (Z.land (os.Mode fi) 73 =? 0)%Z then (os.Chmod fs p 493).1 else fs)
  /\ (forall err, v.2 = Some err ->
        stage r.1.1 = stepDone /\ r.1.2 = None
        /\ viewport r.1.1
           = viewport_SetContent (viewport m) (lipgloss_Render (errStyle m) (Error err)))
  /\ (v.2 = None ->
        stage r.1.1 = stepRunning /\ r.2 = v.1
        /\ exists c, r.1.2 = Some (Batch [startProcess c; nextTick])).
Proof.
  intros Hst Hk p v r.
  assert (keyIs (Key_String k) ["q"; "ctrl+c"]%string = false) as Hq by (by rewrite Hk).
  assert (keyIs (Key_String k) ["b"]%string = false) as Hb by (by rewrite Hk).
  assert (keyIs (Key_String k) ["n"]%string = false) as Hn by (by rewrite Hk).
  assert (keyIs (Key_String k) ["y"]%string = true) as Hy by (by rewrite Hk).
  assert (r = match v with
              | (fs', Some err) =>
                  (set_stage stepDone
                     (set_viewport
                        (viewport_SetContent (viewport m)
                           (lipgloss_Render (errStyle m) (Error err))) m), None, fs')
              | (fs', None) =>
                  let m' := set_cancel true (set_ctx ctxLive
                              (set_viewport (viewport_SetContent (viewport m) [])
                                 (set_stage stepRunning m))) in
                  (m', Some (Batch [startProcessCmd m'; nextTick]), fs')
              end) as Hr.
  { unfold r, Update. rewrite Hst. cbv beta iota zeta. rewrite Hq, Hb, Hn, Hy.
    fold p. fold v. by destruct v as [? [?|]]. }
  split; [|split; [|split]].
  - unfold v, assertExecutable, os.Stat. case_bool_decide as Hp; simpl.
    { split; [by left|done]. }
    destruct (os.stat fs p) as [fi|e] eqn:Hs; simpl.
    + destruct (os.IsDir fi) eqn:Hd; simpl.
      * split; [|done]. right. right. by exists fi.
      * split.
        -- by destruct (Z.land _ _ =? 0)%Z.
        -- intros [?|[[e [=]]|[fi' [[= <-] ?]]]]; congruence.
    + split; [|done]. right. left. by exists e.
  - intros fi Hp Hs Hd. unfold v, assertExecutable.
    rewrite bool_decide_false by done. rewrite Hs, Hd.
    by destruct (Z.land _ _ =? 0)%Z.
  - intros err Hv. rewrite Hr. destruct v as [fs' [e|]]; simpl in *; [|done].
    by injection Hv as ->.
  - intros Hv. rewrite Hr. destruct v as [fs' [e|]]; simpl in *; [done|].
    repeat split. eexists. reflexivity.
Qed.

(** C3 (amended). A run whose process starts writes three values to its
    standard input, in this order, and closes the stream: the trimmed
    email and a newline, the trimmed API key and a newline, and the
    domains text, to which one newline is added only when it does not end
    in one already. The third value so ends in a newline; it ends in one
    only exactly when the text typed did not end in two. *)
Theorem stdin_protocol (m : model) (o : Outcome) :
  startErr o = None ->
  let p := {| proc_script := scriptPath m;
              proc_email := textinput_Value (email m);
              proc_apiKey := textinput_Value (apiKey m);
              proc_rawDomains := textarea_Value (domArea m) |} in
  let raw := textarea_Value (domArea m) in
  let third := if strings.HasSuffix raw [nl] then raw else raw ++ [nl] in
  startProcessCmd m = startProcess p
  /\ stdinWrites (runProcess p o)
     = [ strings.TrimSpace (textinput_Value (email m)) ++ [nl];
         strings.TrimSpace (textinput_Value (apiKey m)) ++ [nl];
         third ]
  /\ stdinClosed (runProcess p o) = true
  /\ strings.HasSuffix third [nl] = true
  /\ (endsInOneNewline third = true <-> strings.HasSuffix raw [nl; nl] = false).
Proof.
  intros Hs p raw third. split; [done|].
  unfold runProcess. rewrite Hs. cbn [stdinWrites stdinClosed proc_email proc_apiKey proc_rawDomains p].
  fold raw. unfold third, endsInOneNewline.
  destruct (strings.HasSuffix raw [nl]) eqn:Hnl; simpl.
  - rewrite Hnl. simpl. repeat split; try done.
    + by intros ->%negb_true_iff.
    + by intros ->.
  - rewrite HasSuffix_snoc, HasSuffix_snoc2, Hnl. simpl. repeat split; try done.
    intros _. destruct (strings.HasSuffix raw [nl; nl]) eqn:H2; [|done].
    apply HasSuffix_two_one in H2. congruence.
Qed.

Lemma Update_done_empty fs (m : model) (msg : msg_t) :
  done m = None -> done (Update unicodeLower fs m msg).1.1 = None.
Proof.
  intros Hd. unfold Update.
  destruct (stage m) eqn:Hst, msg as [k| |err|ln|x]; simpl;
    repeat match goal with
      | |- context [keyIs ?k ?l] => destruct (keyIs k l) eqn:?
      | |- context [bool_decide ?P] => destruct (bool_decide P) eqn:?
      | |- context [textinput_Update ?w ?x] => destruct (textinput_Update w x)
      | |- context [textarea_Update ?w ?x] => destruct (textarea_Update w x)
      | |- context [spinner_Update ?w ?x] => destruct (spinner_Update w x)
      | |- context [assertExecutable ?a ?b] => destruct (assertExecutable a b) as [? [?|]]
      | |- context [cancel ?x] => destruct (cancel x)
      end; simpl; try done.
  rewrite (drain_done 200 m), Hd. simpl. by rewrite drain_done.
Qed.

Lemma Update_keeps_running fs (m : model) (msg : msg_t) :
  stage m = stepRunning -> done m = None ->
  stage (Update unicodeLower fs m msg).1.1 = stepRunning.
Proof.
  intros Hst Hd. unfold Update. rewrite Hst.
  destruct msg as [k| |err|ln|x]; simpl;
    repeat match goal with
      | |- context [keyIs ?k ?l] => destruct (keyIs k l) eqn:?
      | |- context [spinner_Update ?w ?x] => destruct (spinner_Update w x)
      | |- context [cancel ?x] => destruct (cancel x)
      end; simpl; try done.
  rewrite (drain_done 200 m), Hd. simpl. by rewrite drain_stage.
Qed.

(** No run of the process closure sends on [m.done]. *)
Lemma runProcess_toDone p o : toDone (runProcess p o) = [].
Proof. unfold runProcess. by destruct (startErr o). Qed.

(** Once Running with an empty completion slot, the session stays so,
    whatever is delivered and whatever the processes do: nothing fills
    the slot the tick looks at. *)
Lemma running_never_done evs fs (m : model) :
  stage m = stepRunning -> done m = None ->
  stage (reactAll unicodeLower evs (m, fs)).1 = stepRunning
  /\ done (reactAll unicodeLower evs (m, fs)).1 = None.
Proof.
  unfold reactAll. revert fs m. induction evs as [|ev evs IH]; intros fs m Hst Hd; [done|].
  simpl. destruct ev as [msg|p o].
  - pose proof (Update_keeps_running fs m msg Hst Hd) as H1.
    pose proof (Update_done_empty fs m msg Hd) as H2.
    destruct (Update unicodeLower fs m msg) as [[m' c] fs']. by apply IH.
  - rewrite runProcess_toDone. simpl.
    set (m1 := set_lines _ m).
    pose proof (Update_keeps_running fs m1 (returned (runProcess p o)) Hst Hd) as H1.
    pose proof (Update_done_empty fs m1 (returned (runProcess p o)) Hd) as H2.
    destruct (Update unicodeLower fs m1 _) as [[m' c] fs']. by apply IH.
Qed.

End SessionFacts.

(** ** The session on a plain terminal *)

Section PlainTerminal.

#[local] Existing Instance plainBubbles.

Example session0_confirm :
  let st := reactAll noTables [key "enter"; key "enter"; key "ctrl+d"]
              (session0, oneScript 420 None) in
  stage st.1 = stepConfirm /\ normalized st.1 = [str "example.com"; str "b.org"].
Proof. vm_compute. done. Qed.

Lemma plain_render_contains (st s : gostring) : contains s (st ++ s).
Proof. exists st, []. by rewrite app_nil_r. Qed.

(** C1. A session on a plain terminal is taken to the Running stage; the
    process starts, prints its lines and exits with status 0. The run
    sends nothing on [m.done] and hands [doneMsg] with no error to the
    runtime; after that message and two ticks the completion slot is
    still empty, the stage is still Running, and the log holds the lines
    of the process and no final status line. Whatever comes next, the
    stage stays Running. *)
Theorem completion_never_observed :
  let fs := oneScript 420 None in
  let confirm := reactAll noTables [key "enter"; key "enter"; key "ctrl+d"] (session0, fs) in
  let started := reactAll noTables [key "y"] confirm in
  let finished :=
    reactAll noTables [Ran process0 exitZero; Deliver tickMsg; Deliver tickMsg] started in
  (Update noTables fs confirm.1 (press "y")).1.2
    = Some (Batch [startProcess process0; nextTick])
  /\ stage started.1 = stepRunning
  /\ startErr exitZero = None
  /\ toDone (runProcess process0 exitZero) = []
  /\ returned (runProcess process0 exitZero) = doneMsg None
  /\ done finished.1 = None
  /\ stage finished.1 = stepRunning
  /\ logBuf finished.1 = str "Backing up example.com" ++ [nl] ++ str "Backing up b.org"
  /\ forall evs, stage (reactAll noTables evs finished).1 = stepRunning.
Proof.
  intros fs confirm started finished.
  assert (stage finished.1 = stepRunning) as Hst by (vm_compute; reflexivity).
  assert (done finished.1 = None) as Hd by (vm_compute; reflexivity).
  repeat (split; [vm_compute; reflexivity|]).
  intros evs. destruct finished as [m fs']. by apply running_never_done.
Qed.



(** C7, on a plain terminal: Enter on a pre-filled email, and Enter on an
    API key of two spaces. *)
Lemma enter_needs_text_witness :
  stage (Update noTables (oneScript 420 None) session0 (press "enter")).1.1 = stepAPI
  /\ Update noTables (oneScript 420 None) session0 (press "enter")
     = (set_apiKey (str " s3cr3t ") (set_stage stepAPI session0), None, oneScript 420 None)
  /\ Update noTables (oneScript 420 None)
       (set_apiKey (str "  ") (set_stage stepAPI session0)) (press "enter")
     = (set_apiKey (str "  ") (set_stage stepAPI session0), None, oneScript 420 None).
Proof.
  assert (~ AllSpace (textinput_Value (email session0))) as Hv.
  { intros H. apply TrimSpace_nil_iff in H. vm_compute in H. discriminate. }
  split; [|split].
  - exact (proj1 (proj2 (proj2 (proj1 (enter_needs_text noTables (oneScript 420 None)
                                         session0 (str "enter") eq_refl) eq_refl) Hv))).
  - exact (proj1 (proj2 (proj1 (enter_needs_text noTables (oneScript 420 None) session0
                                  (str "enter") eq_refl) eq_refl) Hv)).
  - refine (proj1 (proj1 (proj2 (enter_needs_text noTables (oneScript 420 None)
                                   (set_apiKey (str "  ") (set_stage stepAPI session0))
                                   (str "enter") eq_refl) eq_refl) _)).
    apply TrimSpace_nil_iff. reflexivity.
Defined.

(** C2, on a plain terminal: a tick that finds [exit status 1] in the
    completion slot. *)
Lemma tick_completion_witness :
  let m := set_done (Some (Some (errorString (str "exit status 1"))))
             (set_stage stepRunning session0) in
  stage (Update noTables (oneScript 420 None) m tickMsg).1.1 = stepDone
  /\ logBuf (Update noTables (oneScript 420 None) m tickMsg).1.1
     = str "<196>Process error: exit status 1".
Proof.
  intros m.
  destruct (proj1 (tick_completion noTables (oneScript 420 None) m eq_refl
                     plain_render_contains) _ eq_refl) as (_ & Hst & _ & Hlog & _).
  split; [exact Hst|exact Hlog].
Defined.

(** C10, on a plain terminal: the three lines of [exitZero], the second
    one blank, drained into an empty log. *)
Lemma log_skips_empty_lines_witness :
  logBuf (drain 200 (set_lines (scanned exitZero) (set_stage stepRunning session0)))
  = str "Backing up example.com" ++ [nl] ++ str "Backing up b.org".
Proof.
  refine (proj1 (proj2 (proj2
    (log_skips_empty_lines 200
       (set_lines (scanned exitZero) (set_stage stepRunning session0)) [] eq_refl _ _)))).
  - constructor.
  - cbn [lines set_lines scanned exitZero].
    repeat (constructor; [apply (bool_decide_unpack _); vm_compute; exact I|]).
    constructor.
Defined.

(** C5: a script of mode 0644 that may not be chmod-ed is a file that
    cannot be made executable, and [assertExecutable] lets it pass. *)
Lemma validation_ignores_chmod :
  let fs := oneScript 420 (Some (errorString (str "operation not permitted"))) in
  cannotBeMadeExecutable fs scriptFile
  /\ (assertExecutable fs scriptFile).2 = None.
Proof.
  split; [|reflexivity].
  exists {| os.IsDir := false; os.Mode := 420 |}. repeat split. discriminate.
Qed.

(** C5 (amended), on a plain terminal: [y] with a script of mode 0644. *)
Lemma validation_witness :
  stage (Update noTables (oneScript 420 None)
           (set_stage stepConfirm session0) (press "y")).1.1 = stepRunning.
Proof.
  refine (proj1 (proj2 (proj2 (proj2
    (validation noTables (oneScript 420 None) (set_stage stepConfirm session0)
       (str "y") eq_refl eq_refl))) _)).
  reflexivity.
Defined.

(** C3: the domains text of [process0] ends in two newlines, and is
    written as it is. *)
Lemma stdin_two_newlines :
  startErr exitZero = None
  /\ stdinWrites (runProcess process0 exitZero)
     = [ str "ops@example.com" ++ [nl];
         str "s3cr3t" ++ [nl];
         str "www.Example.com b.org" ++ [nl; nl] ]
  /\ endsInOneNewline (str "www.Example.com b.org" ++ [nl; nl]) = false.
Proof. vm_compute. done. Qed.

(** C3 (amended), on a plain terminal. *)
Lemma stdin_protocol_witness :
  stdinWrites (runProcess process0 exitZero)
  = [ str "ops@example.com" ++ [nl];
      str "s3cr3t" ++ [nl];
      str "www.Example.com b.org" ++ [nl; nl] ]
  /\ stdinClosed (runProcess process0 exitZero) = true.
Proof.
  destruct (stdin_protocol session0 exitZero eq_refl) as (_ & Hw & Hc & _).
  split; [exact Hw|exact Hc].
Defined.

End PlainTerminal.

(** * Further properties *)

(** ** The normalizer: what it returns *)

Section NormalizerResult.

Lemma firstSeen_elem (l : list gostring) d : d ∈ firstSeen l <-> d ∈ l.
Proof.
  induction l as [|x l IH]; [done|]. simpl.
  rewrite !elem_of_cons, list_elem_of_filter, IH.
  destruct (decide (d = x)); tauto.
Qed.

Lemma omap_candidate_cons tok toks :
  omap candidate (tok :: toks)
  = match candidate tok with
    | Some x => x :: omap candidate toks
    | None => omap candidate toks
    end.
Proof. reflexivity. Qed.

Lemma collect_firstSeen (toks : list gostring) (seen : gset gostring) (out : list gostring) :
  (forall x, x ∈ seen <-> x ∈ out) ->
  collect toks seen out
  = out ++ filter (fun y => y ∉ out) (firstSeen (omap candidate toks)).
Proof.
  revert seen out. induction toks as [|tok toks IH]; intros seen out Hseen.
  - by rewrite app_nil_r.
  - rewrite collect_cons, omap_candidate_cons. unfold candidate at 1.
    cbv zeta. case_bool_decide as Hm; [by apply IH|].
    set (x := strings.TrimPrefix (regexp.FindString hostRe tok) (str "www.")).
    cbn [firstSeen]. case_bool_decide as Hin.
    + apply Hseen in Hin. rewrite filter_cons_False by (intros H; by apply H).
      rewrite (IH seen out Hseen). f_equal.
      rewrite list_filter_filter. apply list_filter_iff. intros y. split; [|tauto].
      intros Hy. split; [done|]. by intros ->.
    + assert (x ∉ out) as Hx by (by rewrite <- Hseen).
      rewrite filter_cons_True by done.
      rewrite (IH ({[x]} ∪ seen) (out ++ [x])).
      2:{ intros y. rewrite elem_of_union, elem_of_singleton, elem_of_app,
            list_elem_of_singleton, Hseen. tauto. }
      rewrite <- app_assoc. simpl. do 2 f_equal.
      rewrite list_filter_filter. apply list_filter_iff. intros y.
      rewrite elem_of_app, list_elem_of_singleton. tauto.
Qed.

Lemma firstSeen_all (l : list gostring) : filter (fun y => y ∉ []) l = l.
Proof.
  induction l as [|x l IH]; [done|].
  rewrite filter_cons_True by (by apply not_elem_of_nil). by rewrite IH.
Qed.

Variable unicodeLower : gostring -> gostring.

(** X1. The normalizer returns, in the order of the tokens, the match of
    the pattern in each token (without a [www.] in front), every one at
    its first occurrence only; so an element is returned exactly when
    some token has it as its match. *)
Theorem normalize_first_seen s :
  normalizeDomains unicodeLower s = firstSeen (omap candidate (tokens unicodeLower s))
  /\ forall d, d ∈ normalizeDomains unicodeLower s
               <-> exists tok, tok ∈ tokens unicodeLower s /\ candidate tok = Some d.
Proof.
  assert (normalizeDomains unicodeLower s
          = firstSeen (omap candidate (tokens unicodeLower s))) as Heq.
  { unfold normalizeDomains, tokens. rewrite (collect_firstSeen _ ∅ []) by set_solver.
    simpl. apply firstSeen_all. }
  split; [done|]. intros d. rewrite Heq, firstSeen_elem, list_elem_of_omap. done.
Qed.

(** X2. The normalizer never returns an element twice. *)
Theorem normalize_no_duplicates s : NoDup (normalizeDomains unicodeLower s).
Proof. apply normalize_spec. Qed.

(** X3. Every element the normalizer returns is not empty, is made of
    the bytes [a-z], [0-9], [-] and [.] only, and is a bare host name, or
    what is left of one behind its [www.]. *)
Theorem normalize_elements s :
  Forall (fun d => d <> []
                   /\ Forall (fun c => hostChar c = true) d
                   /\ (hostname d \/ hostname (str "www." ++ d)))
    (normalizeDomains unicodeLower s).
Proof.
  destruct (normalize_spec unicodeLower s) as [_ Hor].
  eapply Forall_impl; [exact Hor|]. intros d Hd.
  destruct (origin_chars d Hd) as [Hne Hch]. split; [done|]. split; [done|].
  destruct Hd as (m & Hm & ->). unfold strings.TrimPrefix.
  destruct (strings.cut (str "www.") m) as [r|] eqn:Hcut; [|by left].
  right. apply cut_Some in Hcut. by rewrite <- Hcut.
Qed.

End NormalizerResult.

(** ** The normalizer: what it makes of its input *)

Section NormalizerInput.

Lemma lookup_Some oldnew s new r :
  strings.lookup oldnew s = Some (new, r) ->
  exists old, (old, new) ∈ oldnew /\ s = old ++ r.
Proof.
  induction oldnew as [|[old new'] oldnew IH]; simpl; [done|].
  destruct (strings.cut old s) as [r'|] eqn:Hc.
  - intros [= -> ->]. apply cut_Some in Hc. exists old. split; [left|done].
  - intros H. destruct (IH H) as (old' & Hin & Hs). exists old'. split; [by right|done].
Qed.

(** The replacer, the field splitter and the matcher make nothing up:
    bytes with [P] in, bytes with [P] out. *)
Lemma replace_Forall (P : ascii -> Prop) oldnew n s :
  Forall (fun on : gostring * gostring => Forall P on.2) oldnew ->
  Forall P s -> Forall P (strings.replace oldnew n s).
Proof.
  intros Hnew. revert s. induction n as [|n IH]; intros s Hs; [done|].
  destruct s as [|c s]; [done|]. simpl.
  destruct (strings.lookup oldnew (c :: s)) as [[new r]|] eqn:Hl.
  - apply lookup_Some in Hl as (old & Hin & Heq).
    eapply Forall_forall in Hnew; [|exact Hin]. simpl in Hnew.
    rewrite Heq in Hs. apply Forall_app in Hs as [_ Hr].
    apply Forall_app. split; [done|]. by apply IH.
  - apply Forall_cons in Hs as [Hc Hs]. constructor; [done|]. by apply IH.
Qed.

Lemma fields_Forall (P : ascii -> Prop) n cur s :
  Forall P cur -> Forall P s -> Forall (Forall P) (strings.fields n cur s).
Proof.
  assert (forall cur, Forall P cur -> Forall (Forall P) (strings.flush cur)) as Hflush.
  { intros [|c cur'] H; simpl; [apply Forall_nil_2|].
    apply Forall_cons_2; [done|apply Forall_nil_2]. }
  revert cur s. induction n as [|n IH]; intros cur s Hcur Hs; simpl; [by apply Hflush|].
  destruct (strings.leadingSpace s) as [r|] eqn:Hl.
  - apply leadingSpace_Some in Hl as (w & _ & ->). apply Forall_app in Hs as [_ Hr].
    apply Forall_app. split; [by apply Hflush|]. by apply IH.
  - destruct s as [|c s]; [by apply Hflush|]. apply Forall_cons in Hs as [Hc Hs].
    apply IH; [|done]. apply Forall_app. split; [done|]. by constructor.
Qed.

Lemma FindString_Forall (P : ascii -> Prop) re s :
  Forall P s -> Forall P (regexp.FindString re s).
Proof.
  induction s as [|c s IH]; intros Hs; rewrite FindString_unfold.
  - destruct (regexp.bt re [] Some); [by apply Forall_take|done].
  - destruct (regexp.bt re (c :: s) Some); [by apply Forall_take|].
    apply Forall_cons in Hs as [_ Hs]. by apply IH.
Qed.

Lemma collect_none (toks : list gostring) (seen : gset gostring) (out : list gostring) :
  Forall (fun tok => regexp.FindString hostRe tok = []) toks ->
  collect toks seen out = out.
Proof.
  induction 1 as [|tok toks Htok Htoks IH]; [done|].
  rewrite collect_cons. by rewrite bool_decide_true.
Qed.

Lemma lowerByte_fixed c : strings.isUpper c = false -> strings.lowerByte c = c.
Proof. unfold strings.lowerByte. by intros ->. Qed.

Lemma lowerByte_not_dot c : c <> "."%char -> strings.lowerByte c <> "."%char.
Proof. destruct c as [[] [] [] [] [] [] [] []]; vm_compute; congruence. Qed.

Lemma lowerByte_lower c : strings.isUpper (strings.lowerByte c) = false.
Proof. destruct c as [[] [] [] [] [] [] [] []]; vm_compute; reflexivity. Qed.

Lemma lowerByte_ascii c :
  (code c <? 128)%nat = true -> (code (strings.lowerByte c) <? 128)%nat = true.
Proof. destruct c as [[] [] [] [] [] [] [] []]; vm_compute; congruence. Qed.

Lemma map_lowerByte_fixed s :
  existsb strings.isUpper s = false -> map strings.lowerByte s = s.
Proof.
  induction s as [|c s IH]; [done|]. simpl.
  intros [Hc Hs]%orb_false_iff. by rewrite lowerByte_fixed, IH.
Qed.

Variable unicodeLower : gostring -> gostring.

(** On ASCII input [strings.ToLower] lowers byte by byte. *)
Lemma ToLower_ascii s :
  strings.isASCII s = true -> strings.ToLower unicodeLower s = map strings.lowerByte s.
Proof.
  intros H. unfold strings.ToLower. rewrite H.
  destruct (existsb strings.isUpper s) eqn:Hup; [done|]. by rewrite map_lowerByte_fixed.
Qed.

(** X4. ASCII text without any dot is normalized to the empty sequence:
    a token that holds no dot holds no host name. *)
Theorem normalize_without_dot s :
  strings.isASCII s = true -> "."%char ∉ s -> normalizeDomains unicodeLower s = [].
Proof.
  intros Hascii Hdot. unfold normalizeDomains. rewrite ToLower_ascii by done.
  apply collect_none.
  assert (Forall (fun c => c <> "."%char) (map strings.lowerByte s)) as Hs.
  { apply Forall_fmap, Forall_forall. intros c Hc. simpl. apply lowerByte_not_dot.
    by intros ->. }
  assert (Forall (Forall (fun c => c <> "."%char))
            (strings.Fields (strings.Replace repls (map strings.lowerByte s)))) as Htoks.
  { unfold strings.Fields. apply fields_Forall; [constructor|].
    unfold strings.Replace. apply replace_Forall; [|done].
    unfold repls. repeat constructor; by vm_compute. }
  eapply Forall_impl; [exact Htoks|]. intros tok Htok.
  destruct (FindString_host tok) as [?|Hh]; [done|]. exfalso.
  apply hostname_dot in Hh.
  pose proof (FindString_Forall _ hostRe _ Htok) as Hm.
  eapply Forall_forall in Hm; [|exact Hh]. done.
Qed.

(** X5. On ASCII input the normalizer does not look at the case of the
    letters: two inputs with the same lower-case form are normalized to
    the same sequence. *)
Theorem normalize_ignores_case s t :
  strings.isASCII s = true -> strings.isASCII t = true ->
  map strings.lowerByte s = map strings.lowerByte t ->
  normalizeDomains unicodeLower s = normalizeDomains unicodeLower t.
Proof.
  intros Hs Ht Heq. unfold normalizeDomains. by rewrite !ToLower_ascii, Heq.
Qed.

End NormalizerInput.

(** X4, on [not a domain, just text]. *)
Lemma normalize_without_dot_witness :
  normalizeDomains noTables (str "not a domain, just text") = [].
Proof.
  apply normalize_without_dot; [reflexivity|].
  apply (bool_decide_unpack _). vm_compute. exact I.
Defined.

(** X5, on [WWW.Example.COM] and [www.example.com]. *)
Lemma normalize_ignores_case_witness :
  normalizeDomains noTables (str "WWW.Example.COM, B.org")
  = normalizeDomains noTables (str "www.example.com, b.org").
Proof. apply normalize_ignores_case; reflexivity. Defined.

(** ** The normalizer on host names joined by a separator *)

Section NormalizerSeparators.

Lemma host_not_colon c : hostChar c = true -> c <> ":"%char.
Proof. intros H ->. done. Qed.

Lemma sep_not_colon c : isSep c = true -> c <> ":"%char.
Proof. intros H ->. done. Qed.

Lemma input_flags c :
  hostChar c || isSep c = true ->
  (code c <? 128)%nat = true /\ strings.isUpper c = false.
Proof.
  intros H.
  destruct c as [[] [] [] [] [] [] [] []]; vm_compute in H; try discriminate H; done.
Qed.

Lemma spaced_space sp s :
  isSep sp = true -> strings.leadingSpace (spaced sp :: s) = Some s.
Proof.
  intros H.
  destruct sp as [[] [] [] [] [] [] [] []]; vm_compute in H; try discriminate H;
    reflexivity.
Qed.

Lemma replace_sep sp n s :
  isSep sp = true ->
  strings.replace repls (S n) (sp :: s) = spaced sp :: strings.replace repls n s.
Proof.
  intros H.
  destruct sp as [[] [] [] [] [] [] [] []]; vm_compute in H; try discriminate H;
    reflexivity.
Qed.

(** No string the replacer looks for starts at a byte of a host name,
    when no colon follows. *)
Lemma cut_host k0 kt c s :
  hostChar k0 = false \/ ":"%char ∈ kt ->
  hostChar c = true -> ":"%char ∉ s ->
  strings.cut (k0 :: kt) (c :: s) = None.
Proof.
  intros Hk Hc Hs. destruct (strings.cut (k0 :: kt) (c :: s)) as [r|] eqn:Hcut; [|done].
  apply cut_Some in Hcut. injection Hcut as -> ->.
  destruct Hk as [Hk|Hk]; [congruence|].
  exfalso. apply Hs. apply elem_of_app. by left.
Qed.

Lemma lookup_host c s :
  hostChar c = true -> ":"%char ∉ s -> strings.lookup repls (c :: s) = None.
Proof.
  intros Hc Hs.
  assert (Forall (fun on : gostring * gostring =>
                    exists k0 kt, on.1 = k0 :: kt
                                  /\ (hostChar k0 = false \/ ":"%char ∈ kt)) repls) as Hkeys.
  { unfold repls.
    repeat (apply Forall_cons_2;
            [eexists _, _; split; [reflexivity|];
             first [left; reflexivity
                   |right; apply (bool_decide_unpack _); vm_compute; exact I]|]).
    apply Forall_nil_2. }
  induction Hkeys as [|[old new] oldnew (k0 & kt & Hold & Hk) _ IH]; [done|].
  simpl in Hold |- *. subst old. by rewrite cut_host.
Qed.

Lemma replace_host d rest n :
  Forall (fun c => hostChar c = true) d -> ":"%char ∉ (d ++ rest) ->
  strings.replace repls (length d + n) (d ++ rest) = d ++ strings.replace repls n rest.
Proof.
  induction 1 as [|c d Hc Hd IH]; intros Hcolon; [done|].
  change ((c :: d) ++ rest) with (c :: (d ++ rest)) in Hcolon |- *.
  apply not_elem_of_cons in Hcolon as [_ Hcolon].
  change (strings.replace repls (length (c :: d) + n) (c :: (d ++ rest)))
    with (match strings.lookup repls (c :: (d ++ rest)) with
          | Some (new, r) => new ++ strings.replace repls (length d + n) r
          | None => c :: strings.replace repls (length d + n) (d ++ rest)
          end).
  rewrite lookup_host by done. by rewrite IH.
Qed.

Lemma Join_no_colon (ds : list gostring) sp :
  isSep sp = true ->
  Forall (fun d => Forall (fun c => hostChar c = true) d) ds ->
  ":"%char ∉ strings.Join ds [sp].
Proof.
  intros Hsp. induction 1 as [|d ds Hd Hds IH]; [by apply not_elem_of_nil|].
  assert (":"%char ∉ d) as Hd'.
  { intros Hin. eapply Forall_forall in Hd; [|exact Hin]. done. }
  destruct ds as [|d' ds]; [done|].
  change (strings.Join (d :: d' :: ds) [sp])
    with (d ++ sp :: strings.Join (d' :: ds) [sp]).
  rewrite elem_of_app, elem_of_cons. intros [?|[Heq|?]]; [done| |done].
  by apply (sep_not_colon sp).
Qed.

(** The replacer leaves the host names and turns the separator into what
    [spaced] says. *)
Lemma replace_Join (ds : list gostring) sp n :
  isSep sp = true ->
  Forall (fun d => Forall (fun c => hostChar c = true) d) ds ->
  (length (strings.Join ds [sp]) <= n)%nat ->
  strings.replace repls n (strings.Join ds [sp]) = strings.Join ds [spaced sp].
Proof.
  intros Hsp Hds. revert n. induction Hds as [|d ds Hd Hds IH]; intros n Hn.
  - by destruct n.
  - pose proof (Join_no_colon (d :: ds) sp Hsp (Forall_cons_2 _ _ _ Hd Hds)) as Hcolon.
    destruct ds as [|d' ds].
    + change (strings.Join [d] [sp]) with d in Hn, Hcolon |- *.
      change (strings.Join [d] [spaced sp]) with d.
      replace n with (length d + (n - length d))%nat by lia.
      pose proof (replace_host d [] (n - length d) Hd) as Hr.
      rewrite app_nil_r in Hr. rewrite Hr by done.
      destruct (n - length d)%nat; simpl; by rewrite app_nil_r.
    + change (strings.Join (d :: d' :: ds) [sp])
        with (d ++ sp :: strings.Join (d' :: ds) [sp]) in Hn, Hcolon |- *.
      change (strings.Join (d :: d' :: ds) [spaced sp])
        with (d ++ spaced sp :: strings.Join (d' :: ds) [spaced sp]).
      rewrite length_app in Hn. simpl in Hn.
      replace n with (length d + S (n - length d - 1))%nat by lia.
      rewrite replace_host by done. rewrite replace_sep by done.
      rewrite IH by (simpl; lia). done.
Qed.

Lemma fields_Join_space (ds : list gostring) w n :
  (forall s, strings.leadingSpace (w :: s) = Some s) ->
  Forall (fun d => d <> [] /\ Forall (fun c => hostChar c = true) d) ds ->
  (length (strings.Join ds [w]) < n)%nat ->
  strings.fields n [] (strings.Join ds [w]) = ds.
Proof.
  intros Hw Hds. revert n. induction Hds as [|d ds [Hne Hd] Hds IH]; intros n Hn.
  - destruct n as [|n]; [simpl in Hn; lia|]. done.
  - destruct ds as [|d' ds].
    + change (strings.Join [d] [w]) with d in Hn |- *.
      replace n with (length d + S (n - length d - 1))%nat by lia.
      pose proof (fields_run d [] [] (S (n - length d - 1)) Hd) as Hr.
      rewrite app_nil_r in Hr. rewrite Hr, fields_end. simpl. by destruct d.
    + change (strings.Join (d :: d' :: ds) [w])
        with (d ++ w :: strings.Join (d' :: ds) [w]) in Hn |- *.
      rewrite length_app in Hn. simpl in Hn.
      replace n with (length d + S (n - length d - 1))%nat by lia.
      rewrite fields_run by done. rewrite fields_unfold, Hw.
      rewrite IH by (simpl; lia). simpl. by destruct d.
Qed.

Lemma Join_flags (ds : list gostring) sp :
  isSep sp = true ->
  Forall (fun d => Forall (fun c => hostChar c = true) d) ds ->
  strings.isASCII (strings.Join ds [sp]) = true
  /\ existsb strings.isUpper (strings.Join ds [sp]) = false.
Proof.
  intros Hsp Hds.
  assert (Forall (fun c => hostChar c || isSep c = true) (strings.Join ds [sp])) as H.
  { induction Hds as [|d ds Hd Hds IH]; [constructor|].
    assert (Forall (fun c => hostChar c || isSep c = true) d) as Hd'.
    { eapply Forall_impl; [exact Hd|]. by intros c ->. }
    destruct ds as [|d' ds]; [done|].
    change (strings.Join (d :: d' :: ds) [sp])
      with (d ++ sp :: strings.Join (d' :: ds) [sp]).
    apply Forall_app. split; [done|]. constructor; [|done].
    rewrite Hsp. by destruct (hostChar sp). }
  unfold strings.isASCII.
  induction H as [|c s Hc Hs [IH1 IH2]]; [done|].
  apply input_flags in Hc as [Hc1 Hc2]. simpl. by rewrite Hc1, Hc2, IH1, IH2.
Qed.

Lemma hostname_by_match d :
  d <> [] -> regexp.FindString hostRe d = d -> hostname d.
Proof. intros Hne Hd. destruct (FindString_host d) as [H|H]; congruence. Qed.

Variable unicodeLower : gostring -> gostring.

(** X6. Bare host names that are all different and do not start with
    [www.], joined by any one of the separating bytes (tab, newline,
    vertical tab, form feed, carriage return, space, comma, semicolon,
    pipe, slash), are normalized to themselves, in the same order. *)
Theorem normalize_separated (ds : list gostring) sp :
  isSep sp = true ->
  NoDup ds ->
  Forall (fun d => hostname d /\ strings.HasPrefix d (str "www.") = false) ds ->
  normalizeDomains unicodeLower (strings.Join ds [sp]) = ds.
Proof.
  intros Hsp Hnd Hds.
  assert (Forall (fun d => d <> [] /\ Forall (fun c => hostChar c = true) d) ds) as Hch.
  { eapply Forall_impl; [exact Hds|]. intros d [Hh _].
    split; [by apply hostname_nonempty|by apply hostname_chars]. }
  assert (Forall (fun d => Forall (fun c => hostChar c = true) d) ds) as Hch'.
  { eapply Forall_impl; [exact Hch|]. by intros d [_ ?]. }
  destruct (Join_flags ds sp Hsp Hch') as [Hascii Hup].
  unfold normalizeDomains, strings.ToLower. rewrite Hascii, Hup.
  unfold strings.Replace. rewrite replace_Join by done.
  unfold strings.Fields. rewrite fields_Join_space; [|by intros; apply spaced_space|done|lia].
  rewrite collect_fresh; [done|set_solver|done|].
  eapply Forall_impl; [exact Hds|]. intros d [Hh Hp]. split; [done|].
  unfold strings.HasPrefix in Hp. by destruct (strings.cut _ d).
Qed.

End NormalizerSeparators.

(** X6, on [api.example.org] and [b.com] joined by a semicolon. *)
Lemma normalize_separated_witness :
  normalizeDomains noTables (str "api.example.org;b.com")
  = [str "api.example.org"; str "b.com"].
Proof.
  apply (normalize_separated noTables [str "api.example.org"; str "b.com"] ";");
    [reflexivity| |].
  - apply (bool_decide_unpack _). vm_compute. exact I.
  - repeat (apply Forall_cons_2;
            [split; [apply hostname_by_match; [discriminate|vm_compute; reflexivity]
                    |reflexivity]|]).
    apply Forall_nil_2.
Defined.

(** ** The session: what every reachable state has *)

Section SessionInvariants.
Context `{B : Bubbles}.
Variable unicodeLower : gostring -> gostring.

(** [appendLogLine] and the drain loop touch the log, the viewport and
    the line queue only. *)
Lemma appendLogLine_frame (m : model) s :
  email (appendLogLine m s) = email m
  /\ apiKey (appendLogLine m s) = apiKey m
  /\ domArea (appendLogLine m s) = domArea m
  /\ normalized (appendLogLine m s) = normalized m
  /\ cancel (appendLogLine m s) = cancel m
  /\ ctx (appendLogLine m s) = ctx m.
Proof. unfold appendLogLine. by case_bool_decide. Qed.

Lemma drain_frame n (m : model) :
  email (drain n m) = email m
  /\ apiKey (drain n m) = apiKey m
  /\ domArea (drain n m) = domArea m
  /\ normalized (drain n m) = normalized m
  /\ cancel (drain n m) = cancel m
  /\ ctx (drain n m) = ctx m.
Proof.
  revert m. induction n as [|n IH]; intros m; [done|].
  change (drain (S n) m)
    with (match lines m with
          | ln :: rest => drain n (appendLogLine (set_lines rest m) ln)
          | [] => m
          end).
  destruct (lines m) as [|ln rest]; [done|].
  destruct (IH (appendLogLine (set_lines rest m) ln)) as (-> & -> & -> & -> & -> & ->).
  apply (appendLogLine_frame (set_lines rest m) ln).
Qed.

Arguments keyIs : simpl never.
Arguments appendLogLine : simpl never.
Arguments drain : simpl never.

Lemma filled_step fs (m : model) (msg : msg_t) :
  filled unicodeLower m -> filled unicodeLower (Update unicodeLower fs m msg).1.1.
Proof.
  intros (Hemail & Hkey & Hnorm & Hrun). unfold filled, Update.
  destruct (drain_frame 200 m) as (Ed1 & Ed2 & Ed3 & Ed4 & Ed5 & Ed6).
  destruct (stage m) eqn:Hst, msg as [k| |err|ln|x]; simpl;
    repeat match goal with
      | |- context [keyIs ?k ?l] => destruct (keyIs k l) eqn:?
      | |- context [bool_decide ?P] => destruct (bool_decide_reflect P)
      | |- context [textinput_Update ?w ?x] => destruct (textinput_Update w x)
      | |- context [textarea_Update ?w ?x] => destruct (textarea_Update w x)
      | |- context [spinner_Update ?w ?x] => destruct (spinner_Update w x)
      | |- context [assertExecutable ?a ?b] => destruct (assertExecutable a b) as [? [?|]]
      | |- context [if cancel ?x then _ else _] => destruct (cancel x) eqn:?
      | |- context [done ?x] => destruct (done x) as [[?|]|] eqn:?
      | |- context [errors_Is_Canceled ?x] => destruct (errors_Is_Canceled x)
      end; simpl;
    repeat match goal with
      | |- context [appendLogLine ?a ?b] =>
          destruct (appendLogLine_frame a b) as (E1 & E2 & E3 & E4 & E5 & E6);
          rewrite ?E1, ?E2, ?E3, ?E4, ?E5, ?E6, ?(appendLogLine_stage a b);
          clear E1 E2 E3 E4 E5 E6
      end; simpl; rewrite ?Ed1, ?Ed2, ?Ed3, ?Ed4, ?Ed5, ?Ed6, ?drain_stage, ?Hst.
  all: repeat split; intros;
    repeat match goal with H : _ \/ _ |- _ => destruct H end;
    try discriminate; try congruence;
    try (rewrite <- TrimSpace_nil_iff; assumption);
    try (apply Hemail; congruence);
    try (apply Hkey; congruence);
    try (apply Hnorm; auto);
    try (destruct Hrun as [? ?]; [congruence|]; congruence).
Qed.

Lemma filled_react (st : model * os.FS) (ev : event) :
  filled unicodeLower st.1 -> filled unicodeLower (react unicodeLower st ev).1.
Proof.
  destruct st as [m fs]. intros H. destruct ev as [msg|p o]; simpl.
  - pose proof (filled_step fs m msg H) as H'.
    by destruct (Update unicodeLower fs m msg) as [[m' c] fs'].
  - rewrite runProcess_toDone. simpl.
    pose proof (filled_step fs (set_lines (lines m ++ toLines (runProcess p o)) m)
                  (returned (runProcess p o)) H) as H'.
    by destruct (Update unicodeLower fs _ _) as [[m' c] fs'].
Qed.

(** What holds of the initial model and is kept by every step holds of
    every state the event loop reaches. *)
Lemma filled_reachable getenv script fs evs :
  filled unicodeLower (reactAll unicodeLower evs (initialModel getenv script, fs)).1.
Proof.
  unfold reactAll.
  assert (filled unicodeLower (initialModel getenv script, fs).1) as H0.
  { unfold filled. simpl. repeat split; intros; try done.
    by repeat match goal with H : _ \/ _ |- _ => destruct H end. }
  generalize dependent (initialModel getenv script, fs).
  induction evs as [|ev evs IH]; intros st H; [done|].
  simpl. apply IH. by apply filled_react.
Qed.

(** X7. In every state the event loop reaches from the initial model,
    at the Confirm stage, [y] with a script that [assertExecutable] lets
    pass starts
    a process whose email and API key are not blank (so the first two
    lines it is given are more than a newline), and whose domains text is
    the text of the text area. *)
Theorem run_has_email_and_key getenv script fs evs (k : Key) :
  let st := reactAll unicodeLower evs (initialModel getenv script, fs) in
  stage st.1 = stepConfirm ->
  Key_String k = str "y" ->
  (assertExecutable st.2 (scriptPath st.1)).2 = None ->
  exists p,
    (Update unicodeLower st.2 st.1 (KeyMsg k)).1.2 = Some (Batch [startProcess p; nextTick])
    /\ strings.TrimSpace (proc_email p) <> []
    /\ strings.TrimSpace (proc_apiKey p) <> []
    /\ proc_rawDomains p = textarea_Value (domArea st.1).
Proof.
  intros st Hst Hk Hv.
  destruct (filled_reachable getenv script fs evs) as (Hemail & Hkey & _ & _).
  fold st in Hemail, Hkey.
  assert (keyIs (Key_String k) ["q"; "ctrl+c"]%string = false) as Hq by (by rewrite Hk).
  assert (keyIs (Key_String k) ["b"]%string = false) as Hb by (by rewrite Hk).
  assert (keyIs (Key_String k) ["n"]%string = false) as Hn by (by rewrite Hk).
  assert (keyIs (Key_String k) ["y"]%string = true) as Hy by (by rewrite Hk).
  eexists. split.
  - unfold Update. rewrite Hst. cbv beta iota zeta. rewrite Hq, Hb, Hn, Hy.
    destruct (assertExecutable st.2 (scriptPath st.1)) as [fs' [e|]]; [done|].
    reflexivity.
  - simpl. rewrite !TrimSpace_nil_iff. split; [|split; [|done]].
    + apply Hemail. congruence.
    + apply Hkey; congruence.
Qed.

(** X8. In every state the event loop reaches from the initial model,
    from the Confirm stage on, the list kept for the preview is the
    normalization of the text of the text area: it is computed when the
    Domains stage is left and the text does not change afterwards. *)
Theorem preview_is_normalization getenv script fs evs :
  let st := reactAll unicodeLower evs (initialModel getenv script, fs) in
  stage st.1 = stepConfirm \/ stage st.1 = stepRunning \/ stage st.1 = stepDone ->
  normalized st.1 = normalizeDomains unicodeLower (textarea_Value (domArea st.1)).
Proof.
  intros st Hst.
  destruct (filled_reachable getenv script fs evs) as (_ & _ & Hnorm & _).
  by apply Hnorm.
Qed.

(** X9. In every state the event loop reaches from the initial model,
    [q] or [ctrl+c] in the Running stage cancels the context of the
    process and quits: the cancel function is never nil there. *)
Theorem quit_cancels_run getenv script fs evs (k : Key) :
  let st := reactAll unicodeLower evs (initialModel getenv script, fs) in
  stage st.1 = stepRunning ->
  Key_String k = str "q" \/ Key_String k = str "ctrl+c" ->
  ctx (Update unicodeLower st.2 st.1 (KeyMsg k)).1.1 = ctxCanceled
  /\ (Update unicodeLower st.2 st.1 (KeyMsg k)).1.2 = Some Quit.
Proof.
  intros st Hst Hk.
  destruct (filled_reachable getenv script fs evs) as (_ & _ & _ & Hrun).
  fold st in Hrun. destruct (Hrun Hst) as [Hc _].
  assert (keyIs (Key_String k) ["q"; "ctrl+c"]%string = true) as Hq.
  { by destruct Hk as [-> | ->]. }
  unfold Update. rewrite Hst. cbv beta iota zeta. rewrite Hq, Hc. done.
Qed.

End SessionInvariants.

(** ** The session: what a step may change *)

Section SessionSteps.
Context `{B : Bubbles}.
Variable unicodeLower : gostring -> gostring.

Lemma appendLogLine_grows (m : model) s :
  exists more, logBuf (appendLogLine m s) = logBuf m ++ more.
Proof.
  destruct (decide (s = [])) as [->|Hs].
  - exists []. by rewrite appendLogLine_nil, app_nil_r.
  - eexists. by apply appendLogLine_logBuf.
Qed.

Lemma drain_grows n (m : model) : exists more, logBuf (drain n m) = logBuf m ++ more.
Proof.
  revert m. induction n as [|n IH]; intros m.
  - exists []. by rewrite app_nil_r.
  - simpl. destruct (lines m) as [|ln rest].
    + exists []. by rewrite app_nil_r.
    + destruct (IH (appendLogLine (set_lines rest m) ln)) as (more2 & ->).
      destruct (appendLogLine_grows (set_lines rest m) ln) as (more1 & ->).
      exists (more1 ++ more2). by rewrite <- app_assoc.
Qed.

Lemma drain_lines n (m : model) : lines (drain n m) = drop n (lines m).
Proof.
  revert m. induction n as [|n IH]; intros m; [done|].
  simpl. destruct (lines m) as [|ln rest] eqn:Hq; [by rewrite Hq|].
  by rewrite IH, appendLogLine_lines.
Qed.

Lemma keyIs_one k n : keyIs k [n] = true -> k = str n.
Proof.
  unfold keyIs. simpl. rewrite orb_false_r. by intros ?%bool_decide_eq_true.
Qed.

Arguments keyIs : simpl never.
Arguments appendLogLine : simpl never.
Arguments drain : simpl never.

Ltac cases_of_Update :=
  repeat match goal with
    | |- context [keyIs ?k ?l] => destruct (keyIs k l) eqn:?
    | |- context [bool_decide ?P] => destruct (bool_decide_reflect P)
    | |- context [textinput_Update ?w ?x] => destruct (textinput_Update w x)
    | |- context [textarea_Update ?w ?x] => destruct (textarea_Update w x)
    | |- context [spinner_Update ?w ?x] => destruct (spinner_Update w x)
    | |- context [assertExecutable ?a ?b] =>
        destruct (assertExecutable a b) as [? [?|]] eqn:?
    | |- context [if cancel ?x then _ else _] => destruct (cancel x) eqn:?
    end.

Lemma Update_log fs (m : model) (msg : msg_t) :
  exists more, logBuf (Update unicodeLower fs m msg).1.1 = logBuf m ++ more
               /\ (more <> [] -> stage m = stepRunning /\ msg = tickMsg).
Proof.
  unfold Update.
  destruct (stage m) eqn:Hst, msg as [k| |err|ln|x]; simpl; cases_of_Update; simpl;
    try (exists []; by rewrite app_nil_r).
  destruct (drain_grows 200 m) as (more1 & Hd).
  destruct (done (drain 200 m)) as [[e|]|]; simpl;
    [destruct (errors_Is_Canceled e); simpl| |by exists more1].
  all: match goal with
       | |- context [appendLogLine ?a ?b] =>
           destruct (appendLogLine_grows a b) as (more2 & ->)
       end;
    simpl; rewrite Hd; exists (more1 ++ more2); by rewrite <- app_assoc.
Qed.

(** X10. The log only grows: whatever the event loop does, the log it
    had stays in front of the log it has, and a step of [Update] adds to
    the log only for a tick in the Running stage. (No step clears it.) *)
Theorem log_only_grows :
  (forall evs (m : model) fs,
     exists more, logBuf (reactAll unicodeLower evs (m, fs)).1 = logBuf m ++ more)
  /\ (forall fs (m : model) (msg : msg_t),
        logBuf (Update unicodeLower fs m msg).1.1 <> logBuf m ->
        stage m = stepRunning /\ msg = tickMsg).
Proof.
  split.
  - unfold reactAll. induction evs as [|ev evs IH]; intros m fs.
    { exists []. by rewrite app_nil_r. }
    simpl. destruct ev as [msg|p o].
    + destruct (Update_log fs m msg) as (more1 & H1 & _).
      destruct (Update unicodeLower fs m msg) as [[m' c] fs']. simpl in H1.
      destruct (IH m' fs') as (more2 & ->). rewrite H1.
      exists (more1 ++ more2). by rewrite <- app_assoc.
    + rewrite runProcess_toDone. simpl.
      set (m1 := set_lines _ m).
      destruct (Update_log fs m1 (returned (runProcess p o))) as (more1 & H1 & _).
      destruct (Update unicodeLower fs m1 _) as [[m' c] fs']. simpl in H1.
      destruct (IH m' fs') as (more2 & ->). rewrite H1.
      exists (more1 ++ more2). by rewrite <- app_assoc.
  - intros fs m msg Hne. destruct (Update_log fs m msg) as (more & Heq & Hwhy).
    apply Hwhy. intros ->. by rewrite app_nil_r in Heq.
Qed.

(** X11. A tick in the Running stage takes the first 200 lines off the
    queue (all of them when there are fewer) and leaves the others in
    their order; in the other stages, and for any message that is not a
    tick, [Update] leaves the queue as it is. *)
Theorem tick_takes_batch fs (m : model) (msg : msg_t) :
  (stage m = stepRunning ->
     lines (Update unicodeLower fs m tickMsg).1.1 = drop 200 (lines m))
  /\ (stage m <> stepRunning \/ msg <> tickMsg ->
      lines (Update unicodeLower fs m msg).1.1 = lines m).
Proof.
  split.
  - intros Hst. unfold Update. rewrite Hst. cbv beta iota zeta.
    destruct (done (drain 200 m)) as [err|]; simpl; [|apply drain_lines].
    destruct err as [e|]; [destruct (negb (errors_Is_Canceled e))|];
      by rewrite appendLogLine_lines; simpl; rewrite drain_lines.
  - intros Hwhy. unfold Update.
    destruct (stage m) eqn:Hst, msg as [k| |err|ln|x]; simpl; cases_of_Update; simpl;
      try done.
    by destruct Hwhy.
Qed.

(** X12. Once a run has been started, the session never gets back to a
    stage from which one can be started: from Running or Done the event
    loop only reaches Running or Done. And in the Running stage a key or
    a tick yields no command, [tea.Quit] or the next tick, never the
    start of a process. *)
Theorem one_run_per_session :
  (forall evs (m : model) fs,
     stage m = stepRunning \/ stage m = stepDone ->
     stage (reactAll unicodeLower evs (m, fs)).1 = stepRunning
     \/ stage (reactAll unicodeLower evs (m, fs)).1 = stepDone)
  /\ (forall fs (m : model) (msg : msg_t),
        stage m = stepRunning ->
        (exists k, msg = KeyMsg k) \/ msg = tickMsg ->
        (Update unicodeLower fs m msg).1.2 = None
        \/ (Update unicodeLower fs m msg).1.2 = Some Quit
        \/ (Update unicodeLower fs m msg).1.2 = Some nextTick).
Proof.
  assert (forall fs (m : model) (msg : msg_t),
            stage m = stepRunning \/ stage m = stepDone ->
            stage (Update unicodeLower fs m msg).1.1 = stepRunning
            \/ stage (Update unicodeLower fs m msg).1.1 = stepDone) as Hstep.
  { intros fs m msg Hst. unfold Update.
    destruct Hst as [Hst|Hst]; rewrite Hst; destruct msg as [k| |err|ln|x];
      simpl; cases_of_Update; simpl; rewrite ?Hst; auto.
    destruct (done (drain 200 m)) as [err|]; simpl; [by right|].
    left. by rewrite drain_stage. }
  split.
  - unfold reactAll. induction evs as [|ev evs IH]; intros m fs Hst; [done|].
    simpl. destruct ev as [msg|p o].
    + pose proof (Hstep fs m msg Hst) as H1.
      destruct (Update unicodeLower fs m msg) as [[m' c] fs']. by apply IH.
    + rewrite runProcess_toDone. simpl. set (m1 := set_lines _ m).
      pose proof (Hstep fs m1 (returned (runProcess p o)) Hst) as H1.
      destruct (Update unicodeLower fs m1 _) as [[m' c] fs']. by apply IH.
  - intros fs m msg Hst Hmsg. unfold Update. rewrite Hst.
    destruct Hmsg as [[k ->]| ->]; simpl; cases_of_Update; simpl; auto.
    destruct (done (drain 200 m)) as [err|]; simpl; auto.
Qed.

Lemma assertExecutable_verdict fs p :
  (assertExecutable fs p).2
  = if bool_decide (p = []) then Some (errorString (str "script path is empty"))
    else match os.Stat fs p with
         | inr err =>
             Some (wrapError (str "script not found at " ++ p ++ str ": " ++ Error err) err)
         | inl fi =>
             if os.IsDir fi then Some (errorString (p ++ str " is a directory")) else None
         end.
Proof.
  unfold assertExecutable. case_bool_decide; [done|].
  destruct (os.Stat fs p) as [fi|e]; [|done].
  destruct (os.IsDir fi); [done|]. by destruct (_ =? _)%Z.
Qed.

Lemma stat_after_validation fs p :
  os.Stat (assertExecutable fs p).1 p = os.Stat fs p
  \/ exists fi, os.Stat fs p = inl fi /\ os.IsDir fi = false
                /\ os.Stat (assertExecutable fs p).1 p = inl (os.withPerm 493 fi).
Proof.
  unfold assertExecutable. case_bool_decide; [by left|].
  destruct (os.Stat fs p) as [fi|e] eqn:Hs; [|by left].
  destruct (os.IsDir fi) eqn:Hd; [by left|].
  destruct (_ =? _)%Z; [|by left].
  unfold os.Chmod. destruct (os.chmodError fs p); [by left|].
  right. exists fi. repeat split; [done|]. unfold os.Stat in *. simpl.
  by rewrite bool_decide_true, Hs.
Qed.

(** X13. The one thing the session ever does to the file system is one
    [os.Chmod] of the script to 0755. [Update] hands the file system back
    as it got it unless the message is [y] in the Confirm stage, and then
    it is the file system [assertExecutable] leaves for the script path.
    [assertExecutable] leaves the file system as it was, or as that one
    [os.Chmod] leaves it, and the latter only for a path that is not
    empty and is a file that is no directory and has no executable bit.
    An error, or a script that has an executable bit, leaves the file
    system as it was; and checking once more gives the same verdict. *)
Theorem validation_is_one_chmod fs p :
  (forall (m : model) (msg : msg_t),
     (stage m <> stepConfirm \/ (forall k, msg = KeyMsg k -> Key_String k <> str "y") ->
      (Update unicodeLower fs m msg).2 = fs)
     /\ (forall k, stage m = stepConfirm -> msg = KeyMsg k -> Key_String k = str "y" ->
         (Update unicodeLower fs m msg).2 = (assertExecutable fs (scriptPath m)).1))
  /\ ((assertExecutable fs p).1 = fs
      \/ exists fi, p <> [] /\ os.Stat fs p = inl fi /\ os.IsDir fi = false
                    /\ Z.land (os.Mode fi) 73 = 0%Z
                    /\ (assertExecutable fs p).1 = (os.Chmod fs p 493).1)
  /\ ((assertExecutable fs p).2 <> None -> (assertExecutable fs p).1 = fs)
  /\ (forall fi, os.Stat fs p = inl fi -> Z.land (os.Mode fi) 73 <> 0%Z ->
        (assertExecutable fs p).1 = fs)
  /\ (assertExecutable (assertExecutable fs p).1 p).2 = (assertExecutable fs p).2.
Proof.
  split; [|split; [|split; [|split]]].
  - intros m msg. split.
    2:{ intros k Hst -> Hk. unfold Update. rewrite Hst. cbv beta iota zeta.
        assert (keyIs (Key_String k) ["q"; "ctrl+c"]%string = false) as ->
          by (by rewrite Hk).
        assert (keyIs (Key_String k) ["b"]%string = false) as -> by (by rewrite Hk).
        assert (keyIs (Key_String k) ["n"]%string = false) as -> by (by rewrite Hk).
        assert (keyIs (Key_String k) ["y"]%string = true) as -> by (by rewrite Hk).
        by destruct (assertExecutable fs (scriptPath m)) as [fs' [e|]]. }
    intros Hwhy. unfold Update.
    destruct (stage m) eqn:Hst, msg as [k| |err|ln|x]; simpl;
      repeat match goal with
        | |- context [keyIs ?k ?l] => destruct (keyIs k l) eqn:?
        | |- context [bool_decide ?P] => destruct (bool_decide_reflect P)
        | |- context [textinput_Update ?w ?x] => destruct (textinput_Update w x)
        | |- context [textarea_Update ?w ?x] => destruct (textarea_Update w x)
        | |- context [spinner_Update ?w ?x] => destruct (spinner_Update w x)
        | |- context [if cancel ?x then _ else _] => destruct (cancel x) eqn:?
        | |- context [done ?x] => destruct (done x) as [[?|]|] eqn:?
        | |- context [errors_Is_Canceled ?x] => destruct (errors_Is_Canceled x)
        end; simpl; try done.
    destruct Hwhy as [?|Hk]; [done|]. exfalso. apply (Hk k eq_refl).
    by apply keyIs_one.
  - unfold assertExecutable. case_bool_decide as Hp; [by left|].
    destruct (os.Stat fs p) as [fi|e] eqn:Hs; [|by left].
    destruct (os.IsDir fi) eqn:Hd; [by left|].
    destruct (Z.land _ _ =? 0)%Z eqn:Hz; [|by left].
    right. exists fi. apply Z.eqb_eq in Hz. done.
  - unfold assertExecutable, os.Stat. case_bool_decide; [done|].
    destruct (os.stat fs p) as [fi|e]; [|done].
    destruct (os.IsDir fi); [done|]. by destruct (Z.land _ _ =? 0)%Z.
  - intros fi Hs Hbit. unfold assertExecutable. rewrite Hs. case_bool_decide; [done|].
    destruct (os.IsDir fi); [done|].
    destruct (Z.land (os.Mode fi) 73 =? 0)%Z eqn:Hz; [|done].
    by apply Z.eqb_eq in Hz.
  - rewrite !assertExecutable_verdict. case_bool_decide as Hp; [done|].
    destruct (stat_after_validation fs p) as [->|(fi & Hs & Hd & ->)]; [done|].
    rewrite Hs. simpl. by rewrite Hd.
Qed.

End SessionSteps.

(** ** The session with a pre-filled environment *)

Section Prefilled.
Context `{B : Bubbles}.
Variable unicodeLower : gostring -> gostring.

Arguments keyIs : simpl never.

Lemma Update_email_enter fs (m : model) (k : Key) :
  stage m = stepEmail -> Key_String k = str "enter" ->
  ~ AllSpace (textinput_Value (email m)) ->
  Update unicodeLower fs m (KeyMsg k)
  = (set_apiKey (textinput_Focus (apiKey m)) (set_stage stepAPI m), None, fs).
Proof.
  intros Hst Hk Hv. unfold Update. rewrite Hst. cbv beta iota zeta.
  assert (keyIs (Key_String k) ["q"; "ctrl+c"]%string = false) as -> by (by rewrite Hk).
  assert (keyIs (Key_String k) ["enter"]%string = true) as -> by (by rewrite Hk).
  by rewrite bool_decide_false by (by rewrite TrimSpace_nil_iff).
Qed.

Lemma Update_api_enter fs (m : model) (k : Key) :
  stage m = stepAPI -> Key_String k = str "enter" ->
  ~ AllSpace (textinput_Value (apiKey m)) ->
  Update unicodeLower fs m (KeyMsg k)
  = (set_domArea (textarea_Focus (domArea m)) (set_stage stepDomains m), None, fs).
Proof.
  intros Hst Hk Hv. unfold Update. rewrite Hst. cbv beta iota zeta.
  assert (keyIs (Key_String k) ["q"; "ctrl+c"]%string = false) as -> by (by rewrite Hk).
  assert (keyIs (Key_String k) ["esc"]%string = false) as -> by (by rewrite Hk).
  assert (keyIs (Key_String k) ["enter"]%string = true) as -> by (by rewrite Hk).
  by rewrite bool_decide_false by (by rewrite TrimSpace_nil_iff).
Qed.

Lemma Update_domains_done fs (m : model) (k : Key) :
  stage m = stepDomains -> Key_String k = str "ctrl+d" ->
  Update unicodeLower fs m (KeyMsg k)
  = (set_stage stepConfirm
       (set_normalized (normalizeDomains unicodeLower (textarea_Value (domArea m))) m),
     None, fs).
Proof.
  intros Hst Hk. unfold Update. rewrite Hst. cbv beta iota zeta.
  assert (keyIs (Key_String k) ["q"; "ctrl+c"]%string = false) as -> by (by rewrite Hk).
  assert (keyIs (Key_String k) ["esc"]%string = false) as -> by (by rewrite Hk).
  by assert (keyIs (Key_String k) ["ctrl+d"]%string = true) as -> by (by rewrite Hk).
Qed.

(** X14. With widgets that keep their value when focused, a session
    whose initial model has an email and an API key that are not blank
    (the environment pre-filled them) gets from it to the Confirm stage
    by Enter, Enter, Ctrl+D, with the fields as the initial model had
    them and the normalization of the text of the text area as the
    preview. The initial model hands each non-empty variable of the
    environment to [SetValue]; what the widget keeps of it is the
    widget's business. *)
Theorem prefilled_session getenv script fs (enter finish : Key) :
  let m0 := initialModel getenv script in
  (forall w, textinput_Value (textinput_Focus w) = textinput_Value w) ->
  (forall w, textarea_Value (textarea_Focus w) = textarea_Value w) ->
  Key_String enter = str "enter" ->
  Key_String finish = str "ctrl+d" ->
  ~ AllSpace (textinput_Value (email m0)) ->
  ~ AllSpace (textinput_Value (apiKey m0)) ->
  let st := reactAll unicodeLower
              [Deliver (KeyMsg enter); Deliver (KeyMsg enter); Deliver (KeyMsg finish)]
              (m0, fs) in
  stage st.1 = stepConfirm
  /\ textinput_Value (email st.1) = textinput_Value (email m0)
  /\ textinput_Value (apiKey st.1) = textinput_Value (apiKey m0)
  /\ textarea_Value (domArea st.1) = textarea_Value (domArea m0)
  /\ normalized st.1 = normalizeDomains unicodeLower (textarea_Value (domArea m0))
  /\ (getenv (str "CW_EMAIL") <> [] ->
      exists w, email m0 = textinput_SetValue w (getenv (str "CW_EMAIL")))
  /\ (getenv (str "CW_API_KEY") <> [] ->
      exists w, apiKey m0 = textinput_SetValue w (getenv (str "CW_API_KEY")))
  /\ (getenv (str "CW_DOMAINS") <> [] ->
      exists w, domArea m0 = textarea_SetValue w (getenv (str "CW_DOMAINS"))).
Proof.
  intros m0 Hfocus Hfocus' Henter Hfinish Hemail Hkey st.
  assert ((getenv (str "CW_EMAIL") <> [] ->
           exists w, email m0 = textinput_SetValue w (getenv (str "CW_EMAIL")))
          /\ (getenv (str "CW_API_KEY") <> [] ->
              exists w, apiKey m0 = textinput_SetValue w (getenv (str "CW_API_KEY")))
          /\ (getenv (str "CW_DOMAINS") <> [] ->
              exists w, domArea m0 = textarea_SetValue w (getenv (str "CW_DOMAINS"))))
    as Henv.
  { unfold m0, initialModel. cbn [email apiKey domArea].
    repeat split; intros Hv; rewrite bool_decide_false by done; by eexists. }
  assert (stage m0 = stepEmail) as Hs0 by done.
  unfold st. clear st. clearbody m0.
  assert (reactAll unicodeLower
            [Deliver (KeyMsg enter); Deliver (KeyMsg enter); Deliver (KeyMsg finish)]
            (m0, fs)
          = (set_stage stepConfirm
               (set_normalized
                  (normalizeDomains unicodeLower
                     (textarea_Value (textarea_Focus (domArea m0))))
                  (set_domArea (textarea_Focus (domArea m0))
                     (set_stage stepDomains
                        (set_apiKey (textinput_Focus (apiKey m0))
                           (set_stage stepAPI m0))))), fs)) as ->.
  { unfold reactAll. cbn [foldl]. unfold react at 3.
    rewrite (Update_email_enter fs m0) by done.
    unfold react at 2.
    rewrite Update_api_enter; [|done|done|cbn; by rewrite Hfocus].
    unfold react.
    by rewrite Update_domains_done by done. }
  cbn. rewrite ?Hfocus, ?Hfocus'. destruct Henv as (? & ? & ?). done.
Qed.

End Prefilled.

(** ** The view *)

Section ViewFacts.
Context `{V : BubblesView}.

Lemma contains_refl (s : gostring) : contains s s.
Proof. exists [], []. by rewrite app_nil_r. Qed.

Lemma contains_app_l (t a b : gostring) : contains t a -> contains t (a ++ b).
Proof. intros (x & y & ->). exists x, (y ++ b). by rewrite <- !app_assoc. Qed.

Lemma contains_app_r (t a b : gostring) : contains t b -> contains t (a ++ b).
Proof. intros (x & y & ->). exists (a ++ x), y. by rewrite <- !app_assoc. Qed.

Lemma contains_pre (a b c : gostring) : contains (a ++ b) (a ++ b ++ c).
Proof. exists [], c. by rewrite <- app_assoc. Qed.

Lemma contains_pre3 (a b c d : gostring) : contains (a ++ b ++ c) (a ++ b ++ c ++ d).
Proof. exists [], d. by rewrite <- !app_assoc. Qed.

Lemma contains_Join (pre d : gostring) (ds : list gostring) sep :
  d ∈ ds -> contains (pre ++ d) (pre ++ strings.Join ds (sep ++ pre)).
Proof.
  induction ds as [|e ds IH]; intros Hin; [by apply elem_of_nil in Hin|].
  destruct ds as [|e' ds].
  - apply list_elem_of_singleton in Hin as ->. apply contains_refl.
  - change (strings.Join (e :: e' :: ds) (sep ++ pre))
      with (e ++ (sep ++ pre) ++ strings.Join (e' :: ds) (sep ++ pre)).
    apply elem_of_cons in Hin as [->|Hin].
    + rewrite app_assoc. apply contains_app_l, contains_refl.
    + rewrite <- (app_assoc sep), !app_assoc, <- (app_assoc _ pre).
      apply contains_app_r. by apply IH.
Qed.

(** X15. In the Confirm stage the view holds the email as typed, the
    number of normalized domains, and every normalized domain behind a
    bullet; when there is none it holds the rendered text
    [No valid domains parsed.] instead. It does not depend on the API-key
    widget: nothing of the key is on this screen. *)
Theorem confirm_view_lists (m : model) :
  stage m = stepConfirm ->
  contains (str "Email: " ++ textinput_Value (email m)) (View m)
  /\ contains (str "Domains (" ++ itoa (length (normalized m)) ++ str "):") (View m)
  /\ (forall d, d ∈ normalized m -> contains (bullet ++ d) (View m))
  /\ (normalized m = [] ->
      contains (lipgloss_Render (errStyle m) (str "No valid domains parsed.")) (View m))
  /\ (forall w, View (set_apiKey w m) = View m).
Proof.
  intros Hst. refine (conj _ (conj _ (conj _ (conj _ _)))).
  5:{ intros w. unfold View. simpl. by rewrite Hst. }
  all: unfold View; rewrite Hst; cbv zeta.
  - apply contains_app_r, contains_app_r, contains_app_l, contains_pre.
  - apply contains_app_r, contains_app_r, contains_app_l.
    do 3 apply contains_app_r. apply contains_pre3.
  - intros d Hd. rewrite bool_decide_false.
    2:{ destruct (normalized m); [by apply elem_of_nil in Hd|done]. }
    apply contains_app_r, contains_app_r, contains_app_l.
    do 7 apply contains_app_r. apply contains_app_l. by apply contains_Join.
  - intros ->. rewrite bool_decide_true by done.
    apply contains_app_r, contains_app_r, contains_app_l.
    do 7 apply contains_app_r. apply contains_app_l, contains_refl.
Qed.

End ViewFacts.

(** ** The script path of [main] *)

Section MainFacts.

(** X16. When [filepath.Abs] only returns absolute paths, the script
    path [main] hands to the session is absolute, unless [filepath.Abs]
    failed on it. A value of [CW_BACKUP_SCRIPT] makes the arguments
    irrelevant, and an absolute path, from the variable or from the first
    argument, is used as it is. *)
Theorem script_of_main getenv (args : list gostring) abs :
  (forall p a, abs p = inl a -> filepath_IsAbs a = true) ->
  let script := scriptOfMain getenv args abs in
  (filepath_IsAbs script = true \/ exists e, abs script = inr e)
  /\ (getenv (str "CW_BACKUP_SCRIPT") <> [] ->
      forall args', scriptOfMain getenv args' abs = script)
  /\ (filepath_IsAbs (getenv (str "CW_BACKUP_SCRIPT")) = true ->
      script = getenv (str "CW_BACKUP_SCRIPT"))
  /\ (forall prog arg rest,
        getenv (str "CW_BACKUP_SCRIPT") = [] -> args = prog :: arg :: rest ->
        filepath_IsAbs arg = true -> script = arg).
Proof.
  intros Habs script. unfold script, scriptOfMain. repeat split.
  - match goal with
    | |- context [negb (filepath_IsAbs ?c)] =>
        destruct (filepath_IsAbs c) eqn:Hc; simpl
    end; [by left|].
    match goal with
    | |- context [abs ?c] => destruct (abs c) as [a|e] eqn:Ha
    end.
    + left. by apply (Habs _ _ Ha).
    + right. by exists e.
  - intros Henv args'. by rewrite !bool_decide_false by done.
  - intros Henv. rewrite bool_decide_false.
    2:{ intros Hnil. by rewrite Hnil in Henv. }
    by rewrite Henv.
  - intros prog arg rest Henv -> Harg. rewrite bool_decide_true by done.
    by rewrite Harg.
Qed.

End MainFacts.

(** ** The session: fields and script path *)

Section SessionFields.
Context `{B : Bubbles}.

Arguments keyIs : simpl never.
Arguments appendLogLine : simpl never.
Arguments drain : simpl never.

Lemma appendLogLine_scriptPath (m : model) s :
  scriptPath (appendLogLine m s) = scriptPath m.
Proof. unfold appendLogLine. by case_bool_decide. Qed.

Lemma drain_scriptPath n (m : model) : scriptPath (drain n m) = scriptPath m.
Proof.
  revert m. induction n as [|n IH]; intros m; [done|].
  change (drain (S n) m)
    with (match lines m with
          | ln :: rest => drain n (appendLogLine (set_lines rest m) ln)
          | [] => m
          end).
  destruct (lines m) as [|ln rest]; [done|].
  by rewrite IH, appendLogLine_scriptPath.
Qed.

Variable unicodeLower : gostring -> gostring.

Ltac split_Update :=
  repeat match goal with
    | |- context [keyIs ?k ?l] => destruct (keyIs k l) eqn:?
    | |- context [bool_decide ?P] => destruct (bool_decide_reflect P)
    | |- context [textinput_Update ?w ?x] => destruct (textinput_Update w x)
    | |- context [textarea_Update ?w ?x] => destruct (textarea_Update w x)
    | |- context [spinner_Update ?w ?x] => destruct (spinner_Update w x)
    | |- context [assertExecutable ?a ?b] =>
        destruct (assertExecutable a b) as [? [?|]] eqn:?
    | |- context [if cancel ?x then _ else _] => destruct (cancel x) eqn:?
    | |- context [match done ?x with _ => _ end] => destruct (done x) as [[?|]|] eqn:?
    | |- context [errors_Is_Canceled ?e] => destruct (errors_Is_Canceled e) eqn:?
    end.

Lemma Update_scriptPath fs (m : model) (msg : msg_t) :
  scriptPath (Update unicodeLower fs m msg).1.1 = scriptPath m.
Proof.
  unfold Update.
  destruct (stage m) eqn:Hst, msg as [k| |err|ln|x]; simpl; split_Update; simpl;
    repeat (rewrite ?appendLogLine_scriptPath, ?drain_scriptPath; simpl); done.
Qed.

(** X17. With widgets that keep their value when focused, a step of
    [Update] changes the text of a field only in the stage of that field,
    and never when it changes the stage: going forward or back, starting
    the run and finishing it lose nothing of what was typed. *)
Theorem fields_change_in_their_stage fs (m : model) (msg : msg_t) :
  (forall w, textinput_Value (textinput_Focus w) = textinput_Value w) ->
  (forall w, textarea_Value (textarea_Focus w) = textarea_Value w) ->
  let m' := (Update unicodeLower fs m msg).1.1 in
  (stage m <> stepEmail \/ stage m' <> stage m ->
   textinput_Value (email m') = textinput_Value (email m))
  /\ (stage m <> stepAPI \/ stage m' <> stage m ->
      textinput_Value (apiKey m') = textinput_Value (apiKey m))
  /\ (stage m <> stepDomains \/ stage m' <> stage m ->
      textarea_Value (domArea m') = textarea_Value (domArea m)).
Proof.
  intros Hf Hf'. cbv zeta. unfold Update.
  destruct (stage m) eqn:Hst, msg as [k| |err|ln|x]; simpl; split_Update; simpl;
    rewrite ?Hst, ?Hf, ?Hf';
    repeat match goal with
      | |- context [appendLogLine ?a ?b] =>
          destruct (appendLogLine_frame a b) as (-> & -> & -> & _); simpl
      | |- context [drain ?a ?b] =>
          destruct (drain_frame a b) as (-> & -> & -> & _)
      end;
    try (repeat split; try done; by intros [?|?]).
Qed.

Lemma scriptPath_reachable getenv script fs evs :
  scriptPath (reactAll unicodeLower evs (initialModel getenv script, fs)).1 = script.
Proof.
  unfold reactAll.
  assert (scriptPath (initialModel getenv script, fs).1 = script) as H0 by done.
  generalize dependent (initialModel getenv script, fs).
  induction evs as [|ev evs IH]; intros [m fs'] H; [done|].
  simpl. apply IH. destruct ev as [msg|p o].
  - pose proof (Update_scriptPath fs' m msg) as H'.
    destruct (Update unicodeLower fs' m msg) as [[m' c] fs'']. simpl in *. congruence.
  - rewrite runProcess_toDone. simpl.
    pose proof (Update_scriptPath fs' (set_lines (lines m ++ toLines (runProcess p o)) m)
                  (returned (runProcess p o))) as H'.
    destruct (Update unicodeLower fs' _ _) as [[m' c] fs'']. simpl in *. congruence.
Qed.

(** X18. The script path is fixed for the session: in every state the
    event loop reaches from the initial model it is the path the model
    was made with, so [y] at the Confirm stage validates that path and,
    when it passes, starts the process on it; when it does not pass, no
    command is given and the session is at the Done stage. *)
Theorem script_is_the_one_given getenv script fs evs (k : Key) :
  let st := reactAll unicodeLower evs (initialModel getenv script, fs) in
  let next := Update unicodeLower st.2 st.1 (KeyMsg k) in
  scriptPath st.1 = script
  /\ (stage st.1 = stepConfirm -> Key_String k = str "y" ->
      match (assertExecutable st.2 script).2 with
      | None => exists p, next.1.2 = Some (Batch [startProcess p; nextTick])
                          /\ proc_script p = script
                          /\ stage next.1.1 = stepRunning
      | Some _ => next.1.2 = None /\ stage next.1.1 = stepDone
      end).
Proof.
  intros st next. pose proof (scriptPath_reachable getenv script fs evs) as Hp.
  fold st in Hp. split; [done|]. intros Hst Hk. unfold next, Update.
  rewrite Hst, Hp. cbv beta iota zeta.
  assert (keyIs (Key_String k) ["q"; "ctrl+c"]%string = false) as -> by (by rewrite Hk).
  assert (keyIs (Key_String k) ["b"]%string = false) as -> by (by rewrite Hk).
  assert (keyIs (Key_String k) ["n"]%string = false) as -> by (by rewrite Hk).
  assert (keyIs (Key_String k) ["y"]%string = true) as -> by (by rewrite Hk).
  destruct (assertExecutable st.2 script) as [fs' [e|]]; simpl; [done|].
  eexists. split; [reflexivity|]. by rewrite <- Hp.
Qed.

End SessionFields.


(** ** The input of the process *)

Section ProcessInput.
Context `{B : Bubbles}.

Lemma HasSuffix_one s c : strings.HasSuffix s [c] = true -> exists s', s = s' ++ [c].
Proof.
  unfold strings.HasSuffix, strings.HasPrefix. simpl.
  destruct (rev s) as [|b t] eqn:E; simpl; [done|].
  case_bool_decide as Hb; [|done]. intros _. exists (rev t).
  by rewrite <- (rev_involutive s), E, Hb.
Qed.

Lemma split_last sep cur s : last (strings.split sep cur (s ++ [sep])) = Some [].
Proof.
  revert cur. induction s as [|c s IH]; intros cur; simpl.
  - by rewrite bool_decide_true.
  - case_bool_decide; [|apply IH]. by rewrite last_cons, IH.
Qed.

(** X19. What the script reads. When the process starts and neither the
    trimmed email nor the trimmed API key holds a newline, the bytes
    written to its standard input, cut at the newlines, are: the trimmed
    email, the trimmed API key, then the lines of the domains text; and
    the last line is terminated (the cut ends with an empty piece). When
    the process does not start, nothing is written and the stream is not
    closed. *)
Theorem script_reads_lines (p : Process) (o : Outcome) :
  (startErr o = None ->
   nl ∉ strings.TrimSpace (proc_email p) ->
   nl ∉ strings.TrimSpace (proc_apiKey p) ->
   exists rest,
     strings.Split (concat (stdinWrites (runProcess (B := B) p o))) nl
     = strings.TrimSpace (proc_email p) :: strings.TrimSpace (proc_apiKey p) :: rest
     /\ rest = strings.Split (concat (drop 2 (stdinWrites (runProcess (B := B) p o)))) nl
     /\ last rest = Some []
     /\ (nl ∉ proc_rawDomains p -> rest = [proc_rawDomains p; []]))
  /\ (startErr o <> None ->
      stdinWrites (runProcess (B := B) p o) = []
      /\ stdinClosed (runProcess (B := B) p o) = false
      /\ toLines (runProcess (B := B) p o) = []).
Proof.
  split.
  - intros Hs He Hk. unfold runProcess. rewrite Hs. cbn [stdinWrites concat drop].
    rewrite !app_nil_r. eexists. split; [|split; [reflexivity|split]].
    + unfold strings.Split. rewrite <- !app_assoc. simpl.
      rewrite (split_sep nl []) by done. simpl.
      rewrite (split_sep nl []) by done. simpl. reflexivity.
    + destruct (strings.HasSuffix (proc_rawDomains p) [nl]) eqn:Hnl; simpl.
      * apply HasSuffix_one in Hnl as [s' ->]. apply split_last.
      * apply split_last.
    + intros Hfree.
      assert (strings.HasSuffix (proc_rawDomains p) [nl] = false) as ->.
      { destruct (strings.HasSuffix _ _) eqn:Hnl; [|done].
        apply HasSuffix_one in Hnl as [s' Hs']. exfalso. apply Hfree.
        rewrite Hs'. apply elem_of_app. right. by apply list_elem_of_singleton. }
      simpl. unfold strings.Split. by rewrite (split_sep nl []), app_nil_l.
  - intros Hs. unfold runProcess. by destruct (startErr o).
Qed.

End ProcessInput.

(** ** The further properties on a plain terminal *)

Section PlainSession.

#[local] Existing Instance plainBubbles.
#[local] Existing Instance plainViews.

(** X7, on a plain terminal: [y] at the Confirm stage of the pre-filled
    session, with a script of mode 0644. *)
Lemma run_has_email_and_key_witness :
  let st := reactAll noTables [key "enter"; key "enter"; key "ctrl+d"]
              (session0, oneScript 420 None) in
  exists p,
    (Update noTables st.2 st.1 (press "y")).1.2 = Some (Batch [startProcess p; nextTick])
    /\ strings.TrimSpace (proc_email p) <> []
    /\ strings.TrimSpace (proc_apiKey p) <> []
    /\ proc_rawDomains p = textarea_Value (domArea st.1).
Proof.
  apply (run_has_email_and_key noTables prefilled scriptFile (oneScript 420 None)
           [key "enter"; key "enter"; key "ctrl+d"] (str "y"));
    vm_compute; reflexivity.
Defined.

(** X8, on a plain terminal: the preview at the Confirm stage of the
    pre-filled session. *)
Lemma preview_is_normalization_witness :
  let st := reactAll noTables [key "enter"; key "enter"; key "ctrl+d"]
              (session0, oneScript 420 None) in
  normalized st.1 = normalizeDomains noTables (textarea_Value (domArea st.1)).
Proof.
  apply (preview_is_normalization noTables prefilled scriptFile (oneScript 420 None)
           [key "enter"; key "enter"; key "ctrl+d"]).
  left. vm_compute. reflexivity.
Defined.

(** X9, on a plain terminal: [q] while the pre-filled session runs. *)
Lemma quit_cancels_run_witness :
  let st := reactAll noTables [key "enter"; key "enter"; key "ctrl+d"; key "y"]
              (session0, oneScript 420 None) in
  ctx (Update noTables st.2 st.1 (press "q")).1.1 = ctxCanceled
  /\ (Update noTables st.2 st.1 (press "q")).1.2 = Some Quit.
Proof.
  apply (quit_cancels_run noTables prefilled scriptFile (oneScript 420 None)
           [key "enter"; key "enter"; key "ctrl+d"; key "y"] (str "q")).
  - vm_compute. reflexivity.
  - left. reflexivity.
Defined.

(** X14, on a plain terminal: the environment [prefilled]. *)
Lemma prefilled_session_witness :
  let st := reactAll noTables [key "enter"; key "enter"; key "ctrl+d"]
              (session0, oneScript 420 None) in
  stage st.1 = stepConfirm
  /\ textinput_Value (email st.1) = str "ops@example.com"
  /\ textinput_Value (apiKey st.1) = str " s3cr3t "
  /\ textarea_Value (domArea st.1) = str "www.Example.com b.org" ++ [nl; nl]
  /\ normalized st.1
     = normalizeDomains noTables (str "www.Example.com b.org" ++ [nl; nl]).
Proof.
  destruct (prefilled_session (B := plainBubbles) noTables prefilled scriptFile
              (oneScript 420 None) (str "enter") (str "ctrl+d")
              (fun _ => eq_refl) (fun _ => eq_refl) eq_refl eq_refl)
    as (H1 & H2 & H3 & H4 & H5 & _).
  - intros H; apply TrimSpace_nil_iff in H; vm_compute in H; discriminate.
  - intros H; apply TrimSpace_nil_iff in H; vm_compute in H; discriminate.
  - exact (conj H1 (conj H2 (conj H3 (conj H4 H5)))).
Defined.

(** X15, on a plain terminal: the Confirm screen of the pre-filled
    session. *)
Lemma confirm_view_lists_witness :
  let m := (reactAll noTables [key "enter"; key "enter"; key "ctrl+d"]
              (session0, oneScript 420 None)).1 in
  contains (str "Email: ops@example.com") (View m)
  /\ contains (str "Domains (2):") (View m)
  /\ contains (bullet ++ str "b.org") (View m).
Proof.
  intros m. destruct (confirm_view_lists m eq_refl) as (H1 & H2 & H3 & _ & _).
  split; [exact H1|split; [exact H2|]]. apply H3.
  apply (bool_decide_unpack _). vm_compute. exact I.
Defined.

(** X16: [cwbackup-tui backup.sh] started in [/root] with no
    [CW_BACKUP_SCRIPT]. *)
Lemma script_of_main_witness :
  let script := scriptOfMain prefilled [str "cwbackup-tui"; str "backup.sh"] absInRoot in
  script = str "/root/backup.sh"
  /\ (filepath_IsAbs script = true \/ exists e, absInRoot script = inr e).
Proof.
  intros script. split; [reflexivity|].
  refine (proj1 (script_of_main prefilled [str "cwbackup-tui"; str "backup.sh"]
                   absInRoot _)).
  intros p a H. injection H as <-.
  destruct (filepath_IsAbs p) eqn:E; [exact E|]. by case_bool_decide.
Defined.

(** X17, on a plain terminal: Enter in the Email stage of the pre-filled
    session goes to the API stage and keeps the email. *)
Lemma fields_change_in_their_stage_witness :
  let m' := (Update noTables (oneScript 420 None) session0 (press "enter")).1.1 in
  stage m' = stepAPI
  /\ textinput_Value (email m') = textinput_Value (email session0).
Proof.
  intros m'. split; [reflexivity|].
  refine (proj1 (fields_change_in_their_stage noTables (oneScript 420 None) session0
                   (press "enter") (fun _ => eq_refl) (fun _ => eq_refl)) _).
  right. discriminate.
Defined.

(** X19, on a plain terminal: the run [exitZero] of [process0]. *)
Lemma script_reads_lines_witness :
  strings.Split (concat (stdinWrites (runProcess (B := plainBubbles) process0 exitZero))) nl
  = [str "ops@example.com"; str "s3cr3t"; str "www.Example.com b.org"; []; []].
Proof.
  destruct (proj1 (script_reads_lines (B := plainBubbles) process0 exitZero)) as (rest & H1 & H2 & _).
  - reflexivity.
  - apply (bool_decide_unpack _). vm_compute. exact I.
  - apply (bool_decide_unpack _). vm_compute. exact I.
  - rewrite H1, H2. reflexivity.
Defined.

End PlainSession.
